(** * Background resource-lifecycle manager of the Rocket.Chat client

    A shallow embedding of the activity tracker, the message cache, the
    query-selector cache, the room preserver and the simple background
    refresh manager, with the properties their specification states.

    Time is the value of [Date.now()] in milliseconds, an integer, and is
    passed to every operation that reads the clock. *)

From Stdlib Require Import List ZArith Lia Bool String Ascii.
From Stdlib Require Import DecimalString.
Import ListNotations.
Local Open Scope string_scope.
Local Open Scope list_scope.
Local Open Scope Z_scope.

(* ================================================================== *)
(** * JavaScript [Map<string, V>]

    A [Map] iterates in insertion order: [set] on a key that is present
    replaces the value in place, [set] on a new key appends, [delete]
    removes the key.  An association list in iteration order. *)

Module JsMap.
Section Ops.
Context {V : Type}.

Definition t := list (string * V).

Definition empty : t := [].

Fixpoint get (k : string) (m : t) : option V :=
  match m with
  | [] => None
  | (k', v) :: r => if String.eqb k k' then Some v else get k r
  end.

Definition has (k : string) (m : t) : bool :=
  match get k m with Some _ => true | None => false end.

Fixpoint set (k : string) (v : V) (m : t) : t :=
  match m with
  | [] => [(k, v)]
  | (k', v') :: r =>
      if String.eqb k k' then (k, v) :: r else (k', v') :: set k v r
  end.

Definition delete (k : string) (m : t) : t :=
  filter (fun p => negb (String.eqb k (fst p))) m.

Definition size (m : t) : Z := Z.of_nat (List.length m).

Definition keys (m : t) : list string := map fst m.

(** Keys of a [Map] are unique. *)
Definition wf (m : t) : Prop := NoDup (keys m).

End Ops.
Arguments t V : clear implicits.
End JsMap.

(* ================================================================== *)
(** * lib/chats/MessageCache.ts *)

Module MessageCache.
Section WithMessage.
(** [IMessage] comes from the core typings; the cache never looks inside. *)
Variable IMessage : Type.

Record CacheEntry := mkEntry {
  messages : list IMessage;
  timestamp : Z;
  lastFetch : Z;
  query : string
}.

Record CacheStats := mkStats {
  hits : Z;
  misses : Z;
  evictions : Z
}.

Record t := mkCache {
  cache : JsMap.t CacheEntry;
  maxSize : Z;
  ttl : Z;
  stats : CacheStats
}.

(** [new MessageCache(maxSize = 50, ttl = 30000)] *)
Definition create (maxSize ttl : Z) : t :=
  mkCache JsMap.empty maxSize ttl (mkStats 0 0 0).

Definition default : t := create 50 30000.

Definition with_cache (c : t) (m : JsMap.t CacheEntry) : t :=
  mkCache m (maxSize c) (ttl c) (stats c).

Definition with_stats (c : t) (s : CacheStats) : t :=
  mkCache (cache c) (maxSize c) (ttl c) s.

Definition incr_hits (s : CacheStats) : CacheStats :=
  mkStats (hits s + 1) (misses s) (evictions s).

Definition incr_misses (s : CacheStats) : CacheStats :=
  mkStats (hits s) (misses s + 1) (evictions s).

Definition incr_evictions (s : CacheStats) : CacheStats :=
  mkStats (hits s) (misses s) (evictions s + 1).

(** [get(cacheKey)], with [now] the value [Date.now()] returns. *)
Definition get (now : Z) (cacheKey : string) (c : t)
  : option (list IMessage) * t :=
  match JsMap.get cacheKey (cache c) with
  | None => (None, with_stats c (incr_misses (stats c)))
  | Some entry =>
      if now - timestamp entry >? ttl c then
        (None,
         mkCache (JsMap.delete cacheKey (cache c)) (maxSize c) (ttl c)
                 (incr_misses (stats c)))
      else
        let entry' :=
          mkEntry (messages entry) (timestamp entry) now (query entry) in
        (Some (messages entry),
         mkCache (JsMap.set cacheKey entry'
                    (JsMap.delete cacheKey (cache c)))
                 (maxSize c) (ttl c) (incr_hits (stats c)))
  end.

(** The loop of [evictLRU]: the pair is [(oldestKey, oldestTime)]. *)
Definition evict_scan (acc : string * Z) (m : JsMap.t CacheEntry)
  : string * Z :=
  fold_left
    (fun acc p =>
       if lastFetch (snd p) <? snd acc then (fst p, lastFetch (snd p))
       else acc)
    m acc.

(** [evictLRU()]; it reads the clock itself.  The empty string is the
    only falsy string, so [if (oldestKey)] is a test against it. *)
Definition evictLRU (now : Z) (c : t) : t :=
  let oldestKey := fst (evict_scan (EmptyString, now) (cache c)) in
  if String.eqb oldestKey EmptyString then c
  else mkCache (JsMap.delete oldestKey (cache c)) (maxSize c) (ttl c)
               (incr_evictions (stats c)).

(** [set(cacheKey, messages, query)]: [now] is read first, [now_evict] is
    what [Date.now()] returns inside [evictLRU]. *)
Definition set (now now_evict : Z) (cacheKey : string)
  (msgs : list IMessage) (q : string) (c : t) : t :=
  let c1 :=
    if JsMap.size (cache c) >=? maxSize c then evictLRU now_evict c else c in
  with_cache c1 (JsMap.set cacheKey (mkEntry msgs now now q) (cache c1)).

(** [String.prototype.includes]: [needle] occurs somewhere in [s]. *)
Fixpoint includes (needle s : string) : bool :=
  if String.prefix needle s then true
  else match s with
       | EmptyString => false
       | String _ s' => includes needle s'
       end.

(** [invalidateRoom(rid)]: the loop visits the entries in order and
    deletes from the live map; deleting the entry being visited does not
    disturb the iteration. *)
Definition invalidateRoom (rid : string) (c : t) : t :=
  with_cache c
    (fold_left
       (fun m key => if includes rid key then JsMap.delete key m else m)
       (JsMap.keys (cache c)) (cache c)).

(** [clear()] *)
Definition clear (c : t) : t :=
  mkCache JsMap.empty (maxSize c) (ttl c) (mkStats 0 0 0).

(** [cleanup()] *)
Definition cleanup (now : Z) (c : t) : t :=
  with_cache c
    (fold_left
       (fun m p =>
          if now - timestamp (snd p) >? ttl c then JsMap.delete (fst p) m
          else m)
       (cache c) (cache c)).

(** The entry [(victim, ve)] is the least recently fetched of [m], and
    the first such in iteration order. *)
Definition lru_split (m before : JsMap.t CacheEntry)
  (victim : string) (ve : CacheEntry) (after : JsMap.t CacheEntry) : Prop :=
  m = before ++ (victim, ve) :: after
  /\ (forall p, In p before -> lastFetch ve < lastFetch (snd p))
  /\ (forall p, In p after -> lastFetch ve <= lastFetch (snd p)).

(** [needle] occurs in [s]. *)
Definition is_substring (needle s : string) : Prop :=
  exists pre post, s = (pre ++ needle ++ post)%string.

End WithMessage.

Arguments lru_split {IMessage}.
Arguments mkEntry {IMessage}.
Arguments messages {IMessage}.
Arguments timestamp {IMessage}.
Arguments lastFetch {IMessage}.
Arguments query {IMessage}.
Arguments mkCache {IMessage}.
Arguments cache {IMessage}.
Arguments maxSize {IMessage}.
Arguments ttl {IMessage}.
Arguments stats {IMessage}.
Arguments get {IMessage}.
Arguments set {IMessage}.
Arguments evict_scan {IMessage}.
Arguments evictLRU {IMessage}.
Arguments invalidateRoom {IMessage}.
Arguments cleanup {IMessage}.
Arguments clear {IMessage}.
Arguments with_cache {IMessage}.
Arguments with_stats {IMessage}.
End MessageCache.

(* ================================================================== *)
(** * views/room/MessageList/hooks/useMessages.ts: the query cache *)

Module UseMessages.

Definition MessageTypesValues := string.

(** The [Mongo.Selector<IMessage>] the hook builds:
    [{ rid, _hidden: { $ne: true }, t: { $nin: hideSysMessages },
       ...(!showThreadsInMainChannel && { $or: [...] }) }]. *)
Record Selector := mkSelector {
  sel_rid : string;
  sel_hidden_ne : bool;
  sel_t_nin : list MessageTypesValues;
  sel_or_threads : bool
}.

Definition newQuery (rid : string) (hideSysMessages : list MessageTypesValues)
  (showThreadsInMainChannel : bool) : Selector :=
  mkSelector rid true hideSysMessages (negb showThreadsInMainChannel).

(** The free variables of the [useMemo] callback that computes [query]. *)
Record Inputs := mkInputs {
  cacheKey : string;
  rid : string;
  hideSysMessages : list MessageTypesValues;
  showThreadsInMainChannel : bool
}.

(** The callback: it returns the selector and leaves [queryCache] in the
    second component.  A stored selector is an object, hence truthy, so
    [if (cachedQuery)] is a test for presence. *)
Definition query_memo (i : Inputs) (queryCache : JsMap.t Selector)
  : Selector * JsMap.t Selector :=
  match JsMap.get (cacheKey i) queryCache with
  | Some cachedQuery => (cachedQuery, queryCache)
  | None =>
      let nq := newQuery (rid i) (hideSysMessages i)
                  (showThreadsInMainChannel i) in
      let qc1 := JsMap.set (cacheKey i) nq queryCache in
      let qc2 :=
        if JsMap.size qc1 >? 100 then
          match JsMap.keys qc1 with
          | firstKey :: _ => JsMap.delete firstKey qc1
          | [] => qc1
          end
        else qc1 in
      (nq, qc2)
  end.

(** The cache after a sequence of lookups, oldest first. *)
Definition run (ins : list Inputs) (queryCache : JsMap.t Selector)
  : JsMap.t Selector :=
  fold_left (fun qc i => snd (query_memo i qc)) ins queryCache.

(** The keys on which a sequence of lookups missed, that is the keys it
    inserted, in the order of insertion. *)
Fixpoint inserted (ins : list Inputs) (queryCache : JsMap.t Selector)
  : list string :=
  match ins with
  | [] => []
  | i :: r =>
      match JsMap.get (cacheKey i) queryCache with
      | Some _ => inserted r queryCache
      | None => cacheKey i :: inserted r (snd (query_memo i queryCache))
      end
  end.

End UseMessages.

(* ================================================================== *)
(** * lib/backgroundRefresh/ActivityTracker.ts *)

Module ActivityTracker.

(** The two events of the emitter. *)
Inductive Emitted := active | inactive.

(** [inactiveTimer] is the time at which the pending timeout is due, and
    [None] when no timeout is pending; a handle whose timeout has fired
    is of no use to [clearTimeout].  [blurChecks] are the times at which
    the checks deferred by [blur] are due, oldest first. *)
Record t := mkTracker {
  inactiveTimer : option Z;
  isUserActive : bool;
  lastActivity : Z;
  inactiveTime : Z;
  blurChecks : list Z
}.

(** The delay of [setTimeout] is a 32-bit integer: what is given is
    taken modulo [2^32] into the range from [-2^31] to [2^31 - 1]. *)
Definition to_int32 (x : Z) : Z :=
  (x + 2147483648) mod 4294967296 - 2147483648.

(** [setTimeout(f, delay)] at [now]: a delay that is negative as a
    32-bit integer counts as zero, so a delay of [2^31] is due at
    once. *)
Definition due (now delay : Z) : Z := now + Z.max 0 (to_int32 delay).

Definition resetActivityTracking (now : Z) (s : t) : t :=
  mkTracker (Some (due now (inactiveTime s))) (isUserActive s)
            (lastActivity s) (inactiveTime s) (blurChecks s).

Definition onUserInactive (s : t) : t * list Emitted :=
  if negb (isUserActive s) then (s, [])
  else (mkTracker (inactiveTimer s) false (lastActivity s)
                  (inactiveTime s) (blurChecks s),
        [inactive]).

(** The handler [onActivity] of [setupEventListeners]. *)
Definition onActivity (now : Z) (s : t) : t * list Emitted :=
  let s1 := mkTracker (inactiveTimer s) (isUserActive s) now
                      (inactiveTime s) (blurChecks s) in
  if negb (isUserActive s1) then
    let s2 := mkTracker (inactiveTimer s1) true (lastActivity s1)
                        (inactiveTime s1) (blurChecks s1) in
    (resetActivityTracking now s2, [active])
  else (s1, []).

Definition updateInactiveTime (now time : Z) (s : t) : t :=
  resetActivityTracking now
    (mkTracker (inactiveTimer s) (isUserActive s) (lastActivity s) time
               (blurChecks s)).

(** [new ActivityTracker(inactiveTime)] at [now]. *)
Definition create (now inactiveTime : Z) : t :=
  resetActivityTracking now (mkTracker None true now inactiveTime []).

Inductive DomEvent :=
  mousedown | mousemove | keypress | scroll | touchstart | click.

(** What can happen to a tracker: the listeners of
    [setupEventListeners], the two kinds of timeout coming due, and a
    call of [updateInactiveTime]. *)
Inductive Input :=
| Dom (e : DomEvent)
| visibilitychange (hidden : bool)
| focus
| blur
| InactiveTimerFires
| BlurCheckFires
| UpdateInactiveTime (time : Z).

(** One input at time [now]; [None] when a timeout is said to fire that
    is not pending or not yet due. *)
Definition step (now : Z) (i : Input) (s : t) : option (t * list Emitted) :=
  match i with
  | Dom _ | focus => Some (onActivity now s)
  | visibilitychange hidden =>
      if hidden then Some (onUserInactive s) else Some (onActivity now s)
  | blur =>
      Some (mkTracker (inactiveTimer s) (isUserActive s) (lastActivity s)
                      (inactiveTime s) (blurChecks s ++ [due now 1000]),
            [])
  | InactiveTimerFires =>
      match inactiveTimer s with
      | Some d =>
          if d <=? now then
            Some (onUserInactive
                    (mkTracker None (isUserActive s) (lastActivity s)
                               (inactiveTime s) (blurChecks s)))
          else None
      | None => None
      end
  | BlurCheckFires =>
      match blurChecks s with
      | d :: rest =>
          if d <=? now then
            let s1 := mkTracker (inactiveTimer s) (isUserActive s)
                                (lastActivity s) (inactiveTime s) rest in
            Some (if now - lastActivity s1 >? 1000 then onUserInactive s1
                  else (s1, []))
          else None
      | [] => None
      end
  | UpdateInactiveTime time => Some (updateInactiveTime now time s, [])
  end.

(** A sequence of timed inputs, oldest first, with everything emitted. *)
Fixpoint run (ins : list (Z * Input)) (s : t) : option (t * list Emitted) :=
  match ins with
  | [] => Some (s, [])
  | (now, i) :: r =>
      match step now i s with
      | None => None
      | Some (s1, out1) =>
          match run r s1 with
          | None => None
          | Some (s2, out2) => Some (s2, out1 ++ out2)
          end
      end
  end.

(** The emitted events alternate, starting from the activity state
    [cur]: [inactive] only while active, [active] only while inactive. *)
Fixpoint alternates (cur : bool) (out : list Emitted) : Prop :=
  match out with
  | [] => True
  | inactive :: r => cur = true /\ alternates false r
  | active :: r => cur = false /\ alternates true r
  end.

(** Whether the user is active after the events [out] were emitted,
    having been [cur] before. *)
Definition state_after (cur : bool) (out : list Emitted) : bool :=
  fold_left
    (fun _ e => match e with active => true | inactive => false end)
    out cur.

End ActivityTracker.

(* ================================================================== *)
(** * lib/backgroundRefresh/RoomPreserver.ts *)

Module RoomPreserver.

(** What a call evaluates to once awaited, as far as these methods go. *)
Inductive JsValue := undefined | boolean (b : bool).

Section WithStore.

(** Modelled from the spec: the per-room view store of [RoomManager] is
    not part of these sources; it is "a per-room view-store accessor
    exposing [{scroll, lastTime, atBottom}] get/update".  The store type,
    its three readers and its [update] are taken as given; a [Date] is
    its time value. *)
Variable RoomStore : Type.
Variable store_scroll : RoomStore -> option Z.
Variable store_lastTime : RoomStore -> option Z.
Variable store_atBottom : RoomStore -> option bool.
Variable store_update :
  RoomStore -> option Z -> option Z -> option bool -> RoomStore.

(** Modelled from the spec: [RoomManager] itself, with "a current open
    room id accessor" [opened] and the stores by room id; [getStore]
    looks one up. *)
Record RoomManager := mkRoomManager {
  opened : option string;
  rooms : JsMap.t RoomStore
}.

Definition getStore (rid : string) (rm : RoomManager) : option RoomStore :=
  JsMap.get rid (rooms rm).

(** [PreservedRoomData] of types.ts; [messages] is never filled in by
    the preserver and left out. *)
Record PreservedRoomData := mkPreserved {
  rid : string;
  scroll : option Z;
  lastTime : option Z;
  atBottom : option bool
}.

(** The one field of the class, [preservedData]. *)
Definition t := option PreservedRoomData.

(** [preserve()]: the empty string is falsy, as [undefined] is. *)
Definition preserve (rm : RoomManager) (p : t)
  : option PreservedRoomData * t :=
  match opened rm with
  | None => (None, p)
  | Some roomId =>
      if String.eqb roomId EmptyString then (None, p)
      else
        match getStore roomId rm with
        | None => (None, p)
        | Some store =>
            let d := mkPreserved roomId (store_scroll store)
                       (store_lastTime store) (store_atBottom store) in
            (Some d, Some d)
        end
  end.

Definition opened_is (rm : RoomManager) (r : string) : bool :=
  match opened rm with
  | Some o => String.eqb o r
  | None => false
  end.

(** [restore()]: declared [Promise<void>], it evaluates to [undefined]
    on every path.  [store?.update(...)] changes the store object that
    [RoomManager] holds. *)
Definition restore (rm : RoomManager) (p : t) : JsValue * RoomManager * t :=
  match p with
  | None => (undefined, rm, p)
  | Some d =>
      let rm' :=
        if opened_is rm (rid d) then
          match getStore (rid d) rm with
          | Some store =>
              mkRoomManager (opened rm)
                (JsMap.set (rid d)
                   (store_update store (scroll d) (lastTime d) (atBottom d))
                   (rooms rm))
          | None => rm
          end
        else rm in
      (undefined, rm', None)
  end.

End WithStore.

Arguments mkRoomManager {RoomStore}.
Arguments opened {RoomStore}.
Arguments rooms {RoomStore}.
Arguments getStore {RoomStore}.
Arguments restore {RoomStore}.
Arguments preserve {RoomStore}.
Arguments opened_is {RoomStore}.

(** A store to run the preserver on: [update] assigns the fields that
    are given. *)
Record SampleStore := mkSample {
  s_scroll : option Z;
  s_lastTime : option Z;
  s_atBottom : option bool
}.

Definition sample_update (s : SampleStore) (sc lt : option Z)
  (ab : option bool) : SampleStore :=
  mkSample (match sc with Some _ => sc | None => s_scroll s end)
           (match lt with Some _ => lt | None => s_lastTime s end)
           (match ab with Some _ => ab | None => s_atBottom s end).

End RoomPreserver.

(* ================================================================== *)
(** * lib/backgroundRefresh/SimpleManager.ts and FullResetMemoryCleanup.ts *)

Module SimpleManager.

(** Code outside these classes that a cleanup pass runs: the listeners
    of an event of the manager and the collaborators of the four safe
    steps.  [performMicrotaskCleanup] catches what it throws itself;
    letting it throw here only adds behaviours. *)
Inductive External :=
| Listeners (event : string)
| VideoConfManager_dismissedIncomingCalls
| window_dispatchEvent (type : string)
| document_removeAll (selector : string)
| microtaskCleanup_performMicrotaskCleanup.

Inductive PreserverMethod := preserve | restore.

(** What a pass does, as seen from outside. *)
Inductive Event :=
| Emit (event : string)
| Call (e : External)
| Console (level : string) (msg : string)
| RoomPreserverCall (m : PreserverMethod).

Record BackgroundRefreshConfig := mkConfig {
  inactiveTime : Z;
  refreshInterval : Z;
  enabled : bool;
  preserveCurrentRoom : bool
}.

(** The default configuration of the constructor. *)
Definition default_config : BackgroundRefreshConfig :=
  mkConfig (5 * 60 * 1000) (10 * 60 * 1000) true true.

Record World := mkWorld {
  cleanupHistory : list string;
  trace : list Event
}.

Inductive Result (A : Type) := Ok (a : A) | Thrown.
Arguments Ok {A}.
Arguments Thrown {A}.

(** Computations that log, change [cleanupHistory] and may throw. *)
Definition M (A : Type) := World -> Result A * World.

Definition ret {A} (a : A) : M A := fun w => (Ok a, w).

Definition bind {A B} (m : M A) (k : A -> M B) : M B :=
  fun w =>
    match m w with
    | (Ok a, w1) => k a w1
    | (Thrown, w1) => (Thrown, w1)
    end.

Definition try_catch {A} (m : M A) (handler : M A) : M A :=
  fun w =>
    match m w with
    | (Ok a, w1) => (Ok a, w1)
    | (Thrown, w1) => handler w1
    end.

Notation "m1 ;; m2" := (bind m1 (fun _ => m2))
  (at level 61, right associativity).

Notation "x <- m1 ;; m2" := (bind m1 (fun x => m2))
  (at level 61, m1 at next level, right associativity).

Fixpoint for_each {A} (l : list A) (f : A -> M unit) : M unit :=
  match l with
  | [] => ret tt
  | a :: r => f a ;; for_each r f
  end.

Definition get_history : M (list string) :=
  fun w => (Ok (cleanupHistory w), w).

Definition log (e : Event) : M unit :=
  fun w => (Ok tt, mkWorld (cleanupHistory w) (trace w ++ [e])).

Definition console (level msg : string) : M unit := log (Console level msg).

Definition push_history (entry : string) : M unit :=
  fun w => (Ok tt, mkWorld (cleanupHistory w ++ [entry]) (trace w)).

Definition set_history (h : list string) : M unit :=
  fun w => (Ok tt, mkWorld h (trace w)).

Section WithEnvironment.

(** Which of the outside code throws during this pass. *)
Variable throws : External -> bool.

Definition call (e : External) : M unit :=
  fun w =>
    (if throws e then Thrown else Ok tt,
     mkWorld (cleanupHistory w) (trace w ++ [Call e])).

(** [this.emit(event)] runs the listeners of [event]. *)
Definition emit (event : string) : M unit :=
  fun w =>
    (if throws (Listeners event) then Thrown else Ok tt,
     mkWorld (cleanupHistory w) (trace w ++ [Emit event])).

Definition safeCleanupVideoConf : M unit :=
  try_catch (call VideoConfManager_dismissedIncomingCalls)
    (console "warn" "[FullResetCleanup] Safe VideoConf cleanup failed:").

Definition safeCleanupVoIP : M unit :=
  try_catch (call (window_dispatchEvent "voip:cleanup-history-only"))
    (console "warn" "[FullResetCleanup] Safe VoIP cleanup failed:").

Definition safeCleanupDOMAndEvents : M unit :=
  try_catch (call (document_removeAll "[data-cleanup-safe]"))
    (console "warn" "[FullResetCleanup] Safe DOM cleanup failed:").

Definition safeCleanupMicrotasks : M unit :=
  try_catch (call microtaskCleanup_performMicrotaskCleanup)
    (console "warn" "[FullResetCleanup] Safe microtask cleanup failed:").

Definition performSafeCleanup : M unit :=
  try_catch
    (safeCleanupVideoConf ;;
     safeCleanupVoIP ;;
     safeCleanupDOMAndEvents ;;
     safeCleanupMicrotasks ;;
     push_history "Safe VideoConf cleanup" ;;
     push_history "Safe VoIP cleanup" ;;
     push_history "Safe DOM cleanup" ;;
     push_history "Safe microtask cleanup")
    (console "error" "[FullResetCleanup] Safe cleanup error:").

Definition logCleanupResults : M unit :=
  console "group" "[FullResetCleanup] Cleanup Results" ;;
  h <- get_history ;;
  for_each h (console "log") ;;
  console "groupEnd" EmptyString.

(** [performFullReset(preserveCurrentRoom = true)]: the argument is not
    read. *)
Definition performFullReset (preserveCurrentRoom : bool) : M unit :=
  console "warn"
    "[FullResetCleanup] FULL RESET DISABLED - causes room access issues" ;;
  console "warn" "[FullResetCleanup] Falling back to safe cleanup only" ;;
  performSafeCleanup ;;
  set_history ["EMERGENCY MODE: Performed safe cleanup only"] ;;
  logCleanupResults.

(** [performRefresh()] of the manager with configuration [config]. *)
Definition performRefresh (config : BackgroundRefreshConfig) : M unit :=
  try_catch
    (emit "refresh/started" ;;
     performFullReset (preserveCurrentRoom config) ;;
     emit "refresh/completed")
    (console "warn" "Background refresh error:").

End WithEnvironment.

(** The events of a trace that are requests to other components. *)
Definition is_request (e : Event) : bool :=
  match e with
  | Console _ _ => false
  | _ => true
  end.

Definition requests (tr : list Event) : list Event := filter is_request tr.

Definition world0 : World := mkWorld [] [].

(** What a pass asks of other components when it runs to the end: the
    two events around the four safe steps. *)
Definition pass_requests : list Event :=
  [Emit "refresh/started";
   Call VideoConfManager_dismissedIncomingCalls;
   Call (window_dispatchEvent "voip:cleanup-history-only");
   Call (document_removeAll "[data-cleanup-safe]");
   Call microtaskCleanup_performMicrotaskCleanup;
   Emit "refresh/completed"].

End SimpleManager.

(* ================================================================== *)
(** * Concrete states the properties are run on *)

Module Samples.

(** A message cache of capacity two, full: ["room1-a"] was fetched at 1
    and ["room2-b"] at 2; messages are stood for by their ids. *)
Definition cache_full : MessageCache.t string :=
  MessageCache.mkCache
    [("room1-a", MessageCache.mkEntry ["m1"] 1 1 "q1");
     ("room2-b", MessageCache.mkEntry ["m2"] 2 2 "q2")]
    2 30000 (MessageCache.mkStats 0 0 0).

(** A cache of capacity two, full, both entries set at time 5. *)
Definition cache_same_ms : MessageCache.t string :=
  MessageCache.mkCache
    [("room1-a", MessageCache.mkEntry ["m1"] 5 5 "q1");
     ("room2-b", MessageCache.mkEntry ["m2"] 5 5 "q2")]
    2 30000 (MessageCache.mkStats 0 0 0).

(** The default cache holding one entry created at time 0. *)
Definition cache_one : MessageCache.t string :=
  MessageCache.mkCache
    [("room1-a", MessageCache.mkEntry ["m1"] 0 0 "q1")]
    50 30000 (MessageCache.mkStats 0 0 0).

(** [cache_full] after a new key is set at time 10, the clock reading 11
    inside [evictLRU]. *)
Definition cache_full_set : MessageCache.t string :=
  MessageCache.set 10 11 "room3-c" ["m3"] "q3" cache_full.

(** A query cache holding one selector, and a lookup under its key
    whose inputs would compute another selector. *)
Definition selector_one : UseMessages.Selector :=
  UseMessages.mkSelector "room1" true [] true.

Definition query_cache_one : JsMap.t UseMessages.Selector :=
  [("room1-[]-false", selector_one)].

Definition lookup_hit : UseMessages.Inputs :=
  UseMessages.mkInputs "room1-[]-false" "room1" ["uj"] true.

(** Lookups under the keys ["0"], ..., ["100"]: the first hundred fill
    the cache, then ["0"] is looked up again, then ["100"] is new. *)
Definition lookup_of (n : nat) : UseMessages.Inputs :=
  UseMessages.mkInputs (NilEmpty.string_of_uint (Nat.to_uint n))
    "room1" [] false.

Definition lookups_fill_touch_insert : list UseMessages.Inputs :=
  map lookup_of (seq 0 100) ++ [lookup_of 0; lookup_of 100].

(** A tracker created at time 0 with a threshold of one second, the
    pointer moving at 900 and the timer coming due at 1000. *)
Definition tracker_1s : ActivityTracker.t := ActivityTracker.create 0 1000.

Definition activity_then_timer : list (Z * ActivityTracker.Input) :=
  [(900, ActivityTracker.Dom ActivityTracker.mousemove);
   (1000, ActivityTracker.InactiveTimerFires)].

(** A longer day: the timer, activity, a hidden tab while inactive, a
    blur whose check comes due, activity again. *)
Definition tracker_day : list (Z * ActivityTracker.Input) :=
  [(1000, ActivityTracker.InactiveTimerFires);
   (1500, ActivityTracker.visibilitychange true);
   (2000, ActivityTracker.Dom ActivityTracker.keypress);
   (2100, ActivityTracker.blur);
   (3200, ActivityTracker.BlurCheckFires);
   (3300, ActivityTracker.visibilitychange true);
   (4000, ActivityTracker.focus)].

(** Two rooms with their view stores, ["room2"] open; a snapshot taken
    of ["room1"]; and the same rooms with ["room1"] open. *)
Definition two_rooms : JsMap.t RoomPreserver.SampleStore :=
  [("room1", RoomPreserver.mkSample (Some 0) None (Some true));
   ("room2", RoomPreserver.mkSample (Some 40) (Some 7000) (Some false))].

Definition room2_open : RoomPreserver.RoomManager RoomPreserver.SampleStore :=
  RoomPreserver.mkRoomManager (Some "room2") two_rooms.

Definition room1_open : RoomPreserver.RoomManager RoomPreserver.SampleStore :=
  RoomPreserver.mkRoomManager (Some "room1") two_rooms.

Definition snapshot_room1 : RoomPreserver.PreservedRoomData :=
  RoomPreserver.mkPreserved "room1" (Some 120) (Some 1000) (Some false).

(** A pass in which nothing outside throws, and one in which the first
    and the third step do. *)
Definition nothing_throws (e : SimpleManager.External) : bool := false.

(** A pass in which a listener of [refresh/started] throws. *)
Definition started_listener_throws (e : SimpleManager.External) : bool :=
  match e with
  | SimpleManager.Listeners event => String.eqb event "refresh/started"
  | _ => false
  end.

Definition two_steps_throw (e : SimpleManager.External) : bool :=
  match e with
  | SimpleManager.VideoConfManager_dismissedIncomingCalls => true
  | SimpleManager.document_removeAll _ => true
  | _ => false
  end.

End Samples.

(* ================================================================== *)
(** * Sequences of calls on the message cache *)

Module MessageCacheRuns.
Section WithMessage.
Variable IMessage : Type.

(** The calls that change a cache, each with the clock readings it
    makes. *)
Inductive Op :=
| Get (now : Z) (cacheKey : string)
| Set_ (now now_evict : Z) (cacheKey : string) (msgs : list IMessage)
       (q : string)
| InvalidateRoom (rid : string)
| Cleanup (now : Z).

Definition apply (o : Op) (c : MessageCache.t IMessage)
  : MessageCache.t IMessage :=
  match o with
  | Get now k => snd (MessageCache.get now k c)
  | Set_ now now_evict k msgs q => MessageCache.set now now_evict k msgs q c
  | InvalidateRoom rid => MessageCache.invalidateRoom rid c
  | Cleanup now => MessageCache.cleanup now c
  end.

Definition run (ops : list Op) (c : MessageCache.t IMessage)
  : MessageCache.t IMessage :=
  fold_left (fun c o => apply o c) ops c.

Definition is_get (o : Op) : bool :=
  match o with Get _ _ => true | _ => false end.

Definition is_set (o : Op) : bool :=
  match o with Set_ _ _ _ _ _ => true | _ => false end.

Definition count (f : Op -> bool) (ops : list Op) : Z :=
  Z.of_nat (List.length (filter f ops)).

(** The clock does not go back, every [set] comes at least a
    millisecond after the call before it, and no key is empty; [t] is
    the latest clock reading so far. *)
Fixpoint chronological (t : Z) (ops : list Op) : Prop :=
  match ops with
  | [] => True
  | Get now _ :: r => t <= now /\ chronological now r
  | Set_ now now_evict k _ _ :: r =>
      t < now /\ now <= now_evict /\ k <> EmptyString
      /\ chronological now_evict r
  | InvalidateRoom _ :: r => chronological t r
  | Cleanup now :: r => t <= now /\ chronological now r
  end.

(** The callback [useMessages] hands to [useReactiveValue]: [found] is
    what [Messages.find(query, ...).fetch()] gives if it is asked and
    [querySig] is [JSON.stringify(query)].  A cached array is truthy
    even when empty. *)
Definition fetch (now_get now_set now_evict : Z) (cacheKey : string)
  (found : list IMessage) (querySig : string) (c : MessageCache.t IMessage)
  : list IMessage * MessageCache.t IMessage :=
  match MessageCache.get now_get cacheKey c with
  | (Some cachedMessages, c1) => (cachedMessages, c1)
  | (None, c1) =>
      (found, MessageCache.set now_set now_evict cacheKey found querySig c1)
  end.

(** A later lookup: its clock readings, what the collection would give
    and the signature of its query. *)
Record Lookup := mkLookup {
  at_get : Z;
  at_set : Z;
  at_evict : Z;
  would_find : list IMessage;
  signature : string
}.

(** Lookups under [cacheKey], one after the other with no other call on
    the cache in between: what each returns, and the cache left. *)
Fixpoint fetch_each (cacheKey : string) (ls : list Lookup)
  (c : MessageCache.t IMessage)
  : list (list IMessage) * MessageCache.t IMessage :=
  match ls with
  | [] => ([], c)
  | l :: r =>
      let '(res, c1) :=
        fetch (at_get l) (at_set l) (at_evict l) cacheKey (would_find l)
              (signature l) c in
      let '(rs, c2) := fetch_each cacheKey r c1 in
      (res :: rs, c2)
  end.

(** An entry is past its time to live at [now]. *)
Definition expired (now ttl : Z) (e : MessageCache.CacheEntry IMessage)
  : bool :=
  now - MessageCache.timestamp e >? ttl.

(** Within capacity at time [t]: unique keys, none of them empty, at
    most [maxSize] entries, none fetched after [t]. *)
Definition within_capacity (t : Z) (c : MessageCache.t IMessage) : Prop :=
  JsMap.wf (MessageCache.cache c)
  /\ JsMap.size (MessageCache.cache c) <= MessageCache.maxSize c
  /\ forall p, In p (MessageCache.cache c) ->
        MessageCache.lastFetch (snd p) <= t /\ fst p <> EmptyString.

End WithMessage.

Arguments Get {IMessage}.
Arguments Set_ {IMessage}.
Arguments InvalidateRoom {IMessage}.
Arguments Cleanup {IMessage}.
Arguments apply {IMessage}.
Arguments run {IMessage}.
Arguments is_get {IMessage}.
Arguments is_set {IMessage}.
Arguments count {IMessage}.
Arguments chronological {IMessage}.
Arguments fetch {IMessage}.
Arguments mkLookup {IMessage}.
Arguments at_get {IMessage}.
Arguments fetch_each {IMessage}.
Arguments expired {IMessage}.
Arguments within_capacity {IMessage}.
End MessageCacheRuns.

(* ================================================================== *)
(** * useMessages.ts: merging the hidden system message types *)

Module MergeHideSysMessages.

(** [Array.from(new Set(xs))]: the elements of [xs] in the order of
    their first occurrence; [seen] are the elements already in the
    set. *)
Fixpoint from_set (seen xs : list string) : list string :=
  match xs with
  | [] => []
  | x :: r =>
      if existsb (String.eqb x) seen then from_set seen r
      else x :: from_set (x :: seen) r
  end.

Definition mergeHideSysMessages (sysMesArray1 sysMesArray2 : list string)
  : list string :=
  from_set [] (sysMesArray1 ++ sysMesArray2).

End MergeHideSysMessages.

(* ================================================================== *)
(** * lib/backgroundRefresh/SimpleManager.ts: timers and configuration *)

Module SimpleManagerLifecycle.

(** [Partial<BackgroundRefreshConfig>]: the fields that are given. *)
Record PartialConfig := mkPartial {
  p_inactiveTime : option Z;
  p_refreshInterval : option Z;
  p_enabled : option bool;
  p_preserveCurrentRoom : option bool
}.

(** [{ ...config, ...newConfig }] *)
Definition merge (c : SimpleManager.BackgroundRefreshConfig)
  (p : PartialConfig) : SimpleManager.BackgroundRefreshConfig :=
  SimpleManager.mkConfig
    (match p_inactiveTime p with
     | Some x => x | None => SimpleManager.inactiveTime c end)
    (match p_refreshInterval p with
     | Some x => x | None => SimpleManager.refreshInterval c end)
    (match p_enabled p with
     | Some x => x | None => SimpleManager.enabled c end)
    (match p_preserveCurrentRoom p with
     | Some x => x | None => SimpleManager.preserveCurrentRoom c end).

(** The manager with the timers it has set: [refreshTimer] is the
    handle the field holds, [intervals] are the intervals that are
    live, each with its period, [timeouts] the times at which the
    one-second timeouts of [startRefreshCycle] are due, oldest first,
    and [nextHandle] the handle [setInterval] gives next.  A handle is
    never zero, so [if (this.refreshTimer)] is a test for presence. *)
Record t := mkManager {
  config : SimpleManager.BackgroundRefreshConfig;
  refreshTimer : option nat;
  intervals : list (nat * Z);
  timeouts : list Z;
  nextHandle : nat;
  activityTracker : ActivityTracker.t
}.

(** What the manager does that others see: the event [config/changed]
    and a call of [performRefresh]. *)
Inductive Out :=
| ConfigChanged (c : SimpleManager.BackgroundRefreshConfig)
| RefreshPass (c : SimpleManager.BackgroundRefreshConfig).

(** [new SimpleBackgroundRefreshManager()] at [now]. *)
Definition create (now : Z) : t :=
  mkManager SimpleManager.default_config None [] [] 1
    (ActivityTracker.create now
       (SimpleManager.inactiveTime SimpleManager.default_config)).

Definition clearInterval (h : nat) (l : list (nat * Z)) : list (nat * Z) :=
  filter (fun x => negb (Nat.eqb (fst x) h)) l.

Definition stop (m : t) : t :=
  match refreshTimer m with
  | Some h =>
      mkManager (config m) None (clearInterval h (intervals m)) (timeouts m)
                (nextHandle m) (activityTracker m)
  | None => m
  end.

Definition start (m : t) : t :=
  if negb (SimpleManager.enabled (config m)) then m else stop m.

Definition startRefreshCycle (now : Z) (m : t) : t :=
  mkManager (config m) (Some (nextHandle m))
    (intervals m ++ [(nextHandle m, SimpleManager.refreshInterval (config m))])
    (timeouts m ++ [ActivityTracker.due now 1000])
    (S (nextHandle m)) (activityTracker m).

(** The two listeners of [setupListeners]. *)
Definition on_emitted (now : Z) (m : t) (e : ActivityTracker.Emitted) : t :=
  match e with
  | ActivityTracker.inactive => startRefreshCycle now m
  | ActivityTracker.active => stop m
  end.

Definition updateConfig (now : Z) (newConfig : PartialConfig) (m : t)
  : t * list Out :=
  let cfg := merge (config m) newConfig in
  let m1 :=
    mkManager cfg (refreshTimer m) (intervals m) (timeouts m) (nextHandle m)
      (ActivityTracker.updateInactiveTime now (SimpleManager.inactiveTime cfg)
         (activityTracker m)) in
  (if SimpleManager.enabled cfg then start m1 else stop m1,
   [ConfigChanged cfg]).

(** The body of both timer callbacks of [startRefreshCycle]. *)
Definition refresh_if_inactive (m : t) : list Out :=
  if negb (ActivityTracker.isUserActive (activityTracker m))
  then [RefreshPass (config m)] else [].

Inductive Input :=
| Tracker (i : ActivityTracker.Input)
| UpdateConfig (newConfig : PartialConfig)
| Start
| Stop
| IntervalTick (h : nat)
| FirstPassTimeout.

(** One input at [now]; [None] when a timer is said to fire that is not
    live or not due. *)
Definition step (now : Z) (i : Input) (m : t) : option (t * list Out) :=
  match i with
  | Tracker ti =>
      match ActivityTracker.step now ti (activityTracker m) with
      | Some (tr, emitted) =>
          Some (fold_left (on_emitted now) emitted
                  (mkManager (config m) (refreshTimer m) (intervals m)
                     (timeouts m) (nextHandle m) tr),
                [])
      | None => None
      end
  | UpdateConfig p => Some (updateConfig now p m)
  | Start => Some (start m, [])
  | Stop => Some (stop m, [])
  | IntervalTick h =>
      if existsb (fun x => Nat.eqb (fst x) h) (intervals m)
      then Some (m, refresh_if_inactive m) else None
  | FirstPassTimeout =>
      match timeouts m with
      | d :: rest =>
          if d <=? now then
            Some (mkManager (config m) (refreshTimer m) (intervals m) rest
                    (nextHandle m) (activityTracker m),
                  refresh_if_inactive m)
          else None
      | [] => None
      end
  end.

Fixpoint run (ins : list (Z * Input)) (m : t) : option (t * list Out) :=
  match ins with
  | [] => Some (m, [])
  | (now, i) :: r =>
      match step now i m with
      | None => None
      | Some (m1, out1) =>
          match run r m1 with
          | None => None
          | Some (m2, out2) => Some (m2, out1 ++ out2)
          end
      end
  end.

(** The live intervals are the one the field holds, if any, and there
    is none while the user is active. *)
Definition one_interval (m : t) : Prop :=
  map fst (intervals m)
  = match refreshTimer m with Some h => [h] | None => [] end
  /\ (ActivityTracker.isUserActive (activityTracker m) = true ->
      refreshTimer m = None).

End SimpleManagerLifecycle.

(* ================================================================== *)
(** * lib/ChatMessagesCleanupService.ts *)

Module ChatMessagesCleanupService.

(** What [info?.instance?.release] finds: nothing to call, a [release]
    that returns, or one that throws. *)
Inductive Instance := no_release | releases | release_throws.

(** A [Date] is its time value. *)
Record ChatInstanceInfo := mkInfo {
  rid : string;
  tmid : option string;
  lastUsed : Z;
  instance : Instance
}.

Definition t := JsMap.t ChatInstanceInfo.

(** [getKey(rid, tmid)]: an empty [tmid] is falsy, as a missing one. *)
Definition getKey (rid : string) (tmid : option string) : string :=
  match tmid with
  | Some tm =>
      if String.eqb tm EmptyString then rid else (rid ++ ":" ++ tm)%string
  | None => rid
  end.

Definition registerInstance (now : Z) (rid : string) (tmid : option string)
  (instance : Instance) (m : t) : t :=
  JsMap.set (getKey rid tmid) (mkInfo rid tmid now instance) m.

Definition unregisterInstance (rid : string) (tmid : option string) (m : t)
  : t :=
  JsMap.delete (getKey rid tmid) m.

Definition updateLastUsed (now : Z) (rid : string) (tmid : option string)
  (m : t) : t :=
  match JsMap.get (getKey rid tmid) m with
  | Some info =>
      JsMap.set (getKey rid tmid)
        (mkInfo (ChatMessagesCleanupService.rid info)
                (ChatMessagesCleanupService.tmid info) now (instance info))
        m
  | None => m
  end.

(** [preserveRoom && info.rid === preserveRoom] *)
Definition is_preserved (preserveRoom : option string)
  (info : ChatInstanceInfo) : bool :=
  match preserveRoom with
  | Some r => negb (String.eqb r EmptyString) && String.eqb (rid info) r
  | None => false
  end.

(** The first loop of [performCleanup]: the keys to clean. *)
Definition instancesToClean (cutoffTime : Z) (preserveRoom : option string)
  (m : t) : list string :=
  map fst
    (filter
       (fun p => negb (is_preserved preserveRoom (snd p))
                 && negb (lastUsed (snd p) >? cutoffTime))
       m).

(** The instances left, the keys whose [release] was called, in order,
    and [cleanedCount]. *)
Record Cleaned := mkCleaned {
  instances : t;
  released : list string;
  cleanedCount : Z
}.

(** The second loop of [performCleanup], one key. *)
Definition clean_one (acc : Cleaned) (key : string) : Cleaned :=
  let acc1 :=
    match JsMap.get key (instances acc) with
    | Some info =>
        match instance info with
        | no_release => acc
        | releases =>
            mkCleaned (instances acc) (released acc ++ [key])
                      (cleanedCount acc + 1)
        | release_throws =>
            mkCleaned (instances acc) (released acc ++ [key])
                      (cleanedCount acc)
        end
    | None => acc
    end in
  mkCleaned (JsMap.delete key (instances acc1)) (released acc1)
            (cleanedCount acc1).

(** [performCleanup(preserveRoom)]; [cutoffTime] is the [Date] a quarter
    of an hour before the call. *)
Definition performCleanup (cutoffTime : Z) (preserveRoom : option string)
  (m : t) : Cleaned :=
  fold_left clean_one (instancesToClean cutoffTime preserveRoom m)
            (mkCleaned m [] 0).

(** The thread a key is for: none when [tmid] is missing or empty. *)
Definition thread_of (tmid : option string) : option string :=
  match tmid with
  | Some tm => if String.eqb tm EmptyString then None else Some tm
  | None => None
  end.

Definition has_release (info : ChatInstanceInfo) : bool :=
  match instance info with no_release => false | _ => true end.

Definition release_returns (info : ChatInstanceInfo) : bool :=
  match instance info with releases => true | _ => false end.

(** Cleaning [key] in the registry [m] calls a [release]. *)
Definition release_called (m : t) (key : string) : bool :=
  match JsMap.get key m with
  | Some info => has_release info
  | None => false
  end.

(** An instance that [performCleanup] keeps. *)
Definition kept (cutoffTime : Z) (preserveRoom : option string)
  (p : string * ChatInstanceInfo) : bool :=
  is_preserved preserveRoom (snd p) || (lastUsed (snd p) >? cutoffTime).

End ChatMessagesCleanupService.

(* ================================================================== *)
(** * lib/backgroundRefresh/MessageSystemResetManager.ts: local storage *)

Module MessageSystemResetManager.

(** [localStorage] as the keys [Object.keys] lists with their values. *)
Definition Storage := JsMap.t string.

(** The test of the [filter] in [clearCachedCollections]. *)
Definition is_cache_key (key : string) : bool :=
  MessageCache.includes "message" key
  || MessageCache.includes "chat" key
  || MessageCache.includes "rocketchat_" key.

(** The test of the [forEach]. *)
Definition is_removable (key : string) : bool :=
  negb (MessageCache.includes "user" key)
  && negb (MessageCache.includes "login" key).

Definition clearCachedCollections (localStorage : Storage) : Storage :=
  let keysToRemove := filter is_cache_key (JsMap.keys localStorage) in
  fold_left
    (fun ls key => if is_removable key then JsMap.delete key ls else ls)
    keysToRemove localStorage.

End MessageSystemResetManager.

(* ================================================================== *)
(** * Runs of the activity tracker *)

Module ActivityTrackerRuns.

(** The inputs [onActivity] handles. *)
Definition is_activity (i : ActivityTracker.Input) : bool :=
  match i with
  | ActivityTracker.Dom _ => true
  | ActivityTracker.focus => true
  | ActivityTracker.visibilitychange hidden => negb hidden
  | _ => false
  end.

(** The time of the last such input of a run, [t0] when there is
    none. *)
Fixpoint last_activity (t0 : Z) (ins : list (Z * ActivityTracker.Input))
  : Z :=
  match ins with
  | [] => t0
  | (now, i) :: r => last_activity (if is_activity i then now else t0) r
  end.

End ActivityTrackerRuns.

(* ================================================================== *)
(** * More concrete states *)

Module MoreSamples.

(** Calls on a cache of capacity two, a millisecond apart. *)
Definition busy_calls : list (MessageCacheRuns.Op string) :=
  [MessageCacheRuns.Set_ 1 1 "room1-a" ["m1"] "q1";
   MessageCacheRuns.Set_ 2 2 "room2-b" ["m2"] "q2";
   MessageCacheRuns.Get 3 "room1-a";
   MessageCacheRuns.Set_ 4 4 "room3-c" ["m3"] "q3";
   MessageCacheRuns.InvalidateRoom "room9";
   MessageCacheRuns.Set_ 5 6 "room4-d" ["m4"] "q4";
   MessageCacheRuns.Cleanup 7].

(** Three lookups after a miss at 30001, the last at the end of the
    time to live, the collection holding other messages by then. *)
Definition later_lookups : list (MessageCacheRuns.Lookup string) :=
  [MessageCacheRuns.mkLookup 30002 30002 30002 ["m3"] "q1";
   MessageCacheRuns.mkLookup 40000 40000 40000 [] "q1";
   MessageCacheRuns.mkLookup 60001 60001 60001 ["m4"; "m5"] "q1"].

(** The manager created at time 0 with its default threshold of five
    minutes: the inactivity timer comes due, the first pass and a tick
    of the interval follow; and the manager that leaves. *)
Definition manager_night : list (Z * SimpleManagerLifecycle.Input) :=
  [(300000, SimpleManagerLifecycle.Tracker ActivityTracker.InactiveTimerFires);
   (301000, SimpleManagerLifecycle.FirstPassTimeout);
   (900000, SimpleManagerLifecycle.IntervalTick 1)].

Definition manager_after_night : SimpleManagerLifecycle.t :=
  SimpleManagerLifecycle.mkManager SimpleManager.default_config (Some 1%nat)
    [(1%nat, 600000)] [] 2
    (ActivityTracker.mkTracker None false 0 300000 []).


(** A registry of chat instances: a room, one of its threads, and two
    other rooms. *)
Definition registry : ChatMessagesCleanupService.t :=
  [("room1",
    ChatMessagesCleanupService.mkInfo "room1" None 100
      ChatMessagesCleanupService.releases);
   ("room1:thread1",
    ChatMessagesCleanupService.mkInfo "room1" (Some "thread1") 50
      ChatMessagesCleanupService.release_throws);
   ("room2",
    ChatMessagesCleanupService.mkInfo "room2" None 10
      ChatMessagesCleanupService.release_throws);
   ("room3",
    ChatMessagesCleanupService.mkInfo "room3" None 2000
      ChatMessagesCleanupService.no_release)].

(** Keys of a local storage. *)
Definition storage : MessageSystemResetManager.Storage :=
  [("rocketchat_message_cache", "a");
   ("chat_user_preferences", "b");
   ("theme", "c");
   ("login_chat_token", "d")].

End MoreSamples.

(* ================================================================== *)
(** * MessageSystemResetManager.ts: stopping the computations *)

Module TrackerComputations.

(** A computation of the tracker as far as the manager looks at it:
    whether it is stopped, and the text of its function, [None] when it
    has none.  [stop()] is the tracker's own; it marks the computation
    stopped. *)
Record Computation := mkComputation {
  stopped : bool;
  func : option string
}.

Definition isEssentialComputation (c : Computation) : bool :=
  match func c with
  | None => true
  | Some funcStr =>
      MessageCache.includes "Meteor.userId" funcStr
      || MessageCache.includes "Router" funcStr
      || MessageCache.includes "Session" funcStr
      || MessageCache.includes "AccountsClient" funcStr
  end.

Definition stop (c : Computation) : Computation :=
  mkComputation true (func c).

(** The test of the loop of [stopAllComputations]. *)
Definition to_stop (c : Computation) : bool :=
  negb (stopped c) && negb (isEssentialComputation c).

(** [stopAllComputations()] on the computations the tracker lists: the
    computations afterwards and [stoppedCount]. *)
Definition stopAllComputations (activeComputations : list Computation)
  : list Computation * Z :=
  fold_left
    (fun acc comp =>
       if to_stop comp then (fst acc ++ [stop comp], snd acc + 1)
       else (fst acc ++ [comp], snd acc))
    activeComputations ([], 0).

End TrackerComputations.

(* ================================================================== *)
(** * Facts about [JsMap] *)

Section JsMapFacts.
Context {V : Type}.
Implicit Types (m : JsMap.t V) (k : string) (v : V).

Lemma jsmap_get_in m k v : JsMap.get k m = Some v -> In (k, v) m.
Proof.
  induction m as [|[k' v'] r IH]; simpl; [discriminate|].
  destruct (String.eqb_spec k k') as [->|Hne]; intros H.
  - injection H as ->. now left.
  - right. now apply IH.
Qed.

Lemma jsmap_get_none m k : JsMap.get k m = None <-> ~ In k (JsMap.keys m).
Proof.
  induction m as [|[k' v'] r IH]; simpl; [tauto|].
  destruct (String.eqb_spec k k') as [->|Hne].
  - split; [discriminate|]. intros H. exfalso. apply H. now left.
  - rewrite IH. split; [intros H [E|I]|]; [congruence|tauto|tauto].
Qed.

Lemma jsmap_in_delete m k p :
  In p (JsMap.delete k m) <-> In p m /\ fst p <> k.
Proof.
  unfold JsMap.delete. rewrite filter_In.
  destruct (String.eqb_spec k (fst p)); simpl; intuition congruence.
Qed.

Lemma jsmap_delete_absent m k : ~ In k (JsMap.keys m) -> JsMap.delete k m = m.
Proof.
  induction m as [|[k' v'] r IH]; simpl; [reflexivity|].
  intros H. destruct (String.eqb_spec k k') as [->|Hne]; simpl.
  - exfalso. apply H. now left.
  - f_equal. apply IH. tauto.
Qed.

Lemma jsmap_delete_app m1 m2 k :
  JsMap.delete k (m1 ++ m2) = JsMap.delete k m1 ++ JsMap.delete k m2.
Proof. unfold JsMap.delete. apply filter_app. Qed.

Lemma jsmap_keys_app m1 m2 :
  JsMap.keys (m1 ++ m2) = JsMap.keys m1 ++ JsMap.keys m2.
Proof. unfold JsMap.keys. apply map_app. Qed.

(** Deleting the key of an entry of a well-formed map removes that entry
    and nothing else. *)
Lemma jsmap_delete_middle m1 m2 k v :
  JsMap.wf (m1 ++ (k, v) :: m2) ->
  JsMap.delete k (m1 ++ (k, v) :: m2) = m1 ++ m2.
Proof.
  unfold JsMap.wf. rewrite jsmap_keys_app. simpl. intros H.
  apply NoDup_remove_2 in H. rewrite in_app_iff in H.
  rewrite jsmap_delete_app. simpl. rewrite String.eqb_refl. simpl.
  rewrite !jsmap_delete_absent; tauto.
Qed.

Lemma jsmap_in_split m k v :
  In (k, v) m -> exists m1 m2, m = m1 ++ (k, v) :: m2.
Proof. apply in_split. Qed.

Lemma jsmap_set_absent m k v :
  ~ In k (JsMap.keys m) -> JsMap.set k v m = m ++ [(k, v)].
Proof.
  induction m as [|[k' v'] r IH]; simpl; [reflexivity|].
  intros H. destruct (String.eqb_spec k k') as [->|Hne].
  - exfalso. apply H. now left.
  - f_equal. apply IH. tauto.
Qed.

Lemma jsmap_keys_delete_notin m k : ~ In k (JsMap.keys (JsMap.delete k m)).
Proof.
  unfold JsMap.keys. rewrite in_map_iff. intros [p [E I]].
  apply jsmap_in_delete in I. tauto.
Qed.

Lemma jsmap_wf_filter m (f : string * V -> bool) :
  JsMap.wf m -> JsMap.wf (filter f m).
Proof.
  unfold JsMap.wf. induction m as [|p r IH]; simpl; [auto|].
  intros H. inversion H as [|? ? Hn Hr]; subst.
  destruct (f p); simpl; [|now apply IH].
  constructor; [|now apply IH].
  intros I. apply Hn. unfold JsMap.keys in *. rewrite in_map_iff in *.
  destruct I as (x & E & I). apply filter_In in I. exists x. tauto.
Qed.

Lemma jsmap_wf_delete m k : JsMap.wf m -> JsMap.wf (JsMap.delete k m).
Proof. apply jsmap_wf_filter. Qed.

Lemma jsmap_size_app m1 m2 :
  JsMap.size (m1 ++ m2) = JsMap.size m1 + JsMap.size m2.
Proof. unfold JsMap.size. rewrite length_app. lia. Qed.

Lemma jsmap_get_app_absent m1 m2 k :
  ~ In k (JsMap.keys m1) -> JsMap.get k (m1 ++ m2) = JsMap.get k m2.
Proof.
  induction m1 as [|[k' v'] r IH]; simpl; [reflexivity|].
  intros H. destruct (String.eqb_spec k k') as [->|Hne]; [|apply IH; tauto].
  exfalso. apply H. now left.
Qed.

Lemma jsmap_wf_snoc m k v :
  JsMap.wf m -> ~ In k (JsMap.keys m) -> JsMap.wf (m ++ [(k, v)]).
Proof.
  unfold JsMap.wf. rewrite jsmap_keys_app. simpl.
  induction (JsMap.keys m) as [|x l IH]; simpl; intros N H.
  - constructor; [tauto|constructor].
  - inversion N as [|? ? Hx Hl]; subst. constructor.
    + rewrite in_app_iff. simpl. intros [I|[E|[]]]; [tauto|].
      apply H. now left.
    + apply IH; tauto.
Qed.

Lemma jsmap_wf_tl m : JsMap.wf m -> JsMap.wf (tl m).
Proof.
  unfold JsMap.wf. destruct m as [|p r]; simpl; [auto|].
  intros H. now inversion H.
Qed.

Lemma jsmap_get_set_present m k v w :
  JsMap.get k m = Some w -> JsMap.get k (JsMap.set k v m) = Some v.
Proof.
  induction m as [|[k' v'] r IH]; simpl; [discriminate|].
  destruct (String.eqb_spec k k') as [->|Hne]; simpl.
  - now rewrite String.eqb_refl.
  - destruct (String.eqb_spec k k'); [congruence|]. exact IH.
Qed.

Lemma jsmap_keys_set_present m k v w :
  JsMap.get k m = Some w -> JsMap.keys (JsMap.set k v m) = JsMap.keys m.
Proof.
  induction m as [|[k' v'] r IH]; simpl; [discriminate|].
  destruct (String.eqb_spec k k') as [->|Hne]; simpl; [reflexivity|].
  intros G. f_equal. now apply IH.
Qed.

(** [set] keeps the keys unique. *)
Lemma jsmap_wf_set m k v : JsMap.wf m -> JsMap.wf (JsMap.set k v m).
Proof.
  intros Wf. destruct (JsMap.get k m) as [w|] eqn:G.
  - unfold JsMap.wf. now rewrite (jsmap_keys_set_present _ _ _ _ G).
  - apply jsmap_get_none in G. rewrite (jsmap_set_absent _ _ _ G).
    now apply jsmap_wf_snoc.
Qed.

End JsMapFacts.

(* ================================================================== *)
(** * The message cache *)

Section MessageCacheFacts.
Context {IMessage : Type}.
Implicit Types (c : MessageCache.t IMessage)
  (m : JsMap.t (MessageCache.CacheEntry IMessage)).

Import MessageCache.

Lemma evict_scan_snoc acc m p :
  evict_scan acc (m ++ [p]) =
  let r := evict_scan acc m in
  if lastFetch (snd p) <? snd r then (fst p, lastFetch (snd p)) else r.
Proof. unfold evict_scan. now rewrite fold_left_app. Qed.

(** What the loop of [evictLRU] leaves in [(oldestKey, oldestTime)]:
    either nothing was fetched before [t0] and the pair is untouched, or
    it names the least recently fetched entry. *)
Lemma evict_scan_spec m k0 t0 :
  (evict_scan (k0, t0) m = (k0, t0)
   /\ forall p, In p m -> t0 <= lastFetch (snd p))
  \/ (exists before victim ve after,
        lru_split m before victim ve after
        /\ evict_scan (k0, t0) m = (victim, lastFetch ve)
        /\ lastFetch ve < t0).
Proof.
  induction m as [|p m IH] using rev_ind.
  - left. split; [reflexivity|]. intros p [].
  - rewrite evict_scan_snoc. cbv zeta.
    destruct IH as [[E All]|(before & victim & ve & after & Sp & E & Lt)];
      rewrite E; simpl snd.
    + destruct (Z.ltb_spec (lastFetch (snd p)) t0) as [H|H].
      * right. exists m, (fst p), (snd p), []. repeat split.
        -- now destruct p.
        -- intros q I. specialize (All q I). lia.
        -- intros q [].
        -- exact H.
      * left. split; [reflexivity|].
        intros q I. apply in_app_iff in I. destruct I as [I|[<-|[]]]; auto.
    + destruct Sp as (Em & Hb & Ha).
      destruct (Z.ltb_spec (lastFetch (snd p)) (lastFetch ve)) as [H|H].
      * right. exists m, (fst p), (snd p), []. repeat split.
        -- now destruct p.
        -- intros q I. rewrite Em in I. apply in_app_iff in I.
           destruct I as [I|[<-|I]].
           ++ specialize (Hb q I). lia.
           ++ exact H.
           ++ specialize (Ha q I). lia.
        -- intros q [].
        -- lia.
      * right. exists before, victim, ve, (after ++ [p]). repeat split.
        -- rewrite Em. now rewrite <- app_assoc.
        -- exact Hb.
        -- intros q I. apply in_app_iff in I.
           destruct I as [I|[<-|[]]]; auto.
        -- exact Lt.
Qed.

(** [evictLRU] on a cache with an entry fetched before [now] and without
    the empty key: the least recently fetched entry goes. *)
Lemma evictLRU_spec c now :
  JsMap.wf (cache c) ->
  (exists p, In p (cache c) /\ lastFetch (snd p) < now) ->
  ~ In EmptyString (JsMap.keys (cache c)) ->
  exists before victim ve after,
    lru_split (cache c) before victim ve after
    /\ evictLRU now c =
       mkCache (before ++ after) (maxSize c) (ttl c)
               (incr_evictions (stats c)).
Proof.
  intros Wf [p [Ip Lp]] Hk. unfold evictLRU.
  destruct (evict_scan_spec (cache c) EmptyString now)
    as [[_ All]|(before & victim & ve & after & Sp & E & Lt)].
  - specialize (All p Ip). lia.
  - exists before, victim, ve, after. split; [exact Sp|].
    rewrite E. simpl fst. destruct Sp as (Em & _).
    destruct (String.eqb_spec victim EmptyString) as [->|Hne].
    + exfalso. apply Hk. rewrite Em, jsmap_keys_app. simpl.
      apply in_app_iff. right. now left.
    + f_equal. rewrite Em. apply jsmap_delete_middle. now rewrite <- Em.
Qed.

Lemma prefix_spec (a s : string) :
  String.prefix a s = true <-> exists post, s = (a ++ post)%string.
Proof.
  revert s. induction a as [|x a IH]; intros s.
  - split; [intros _; now exists s|now destruct s].
  - destruct s as [|y s]; simpl;
      [split; [discriminate|intros [post E]; discriminate]|].
    destruct (Ascii.ascii_dec x y) as [->|Hne].
    + rewrite IH. split; intros [post E]; exists post; congruence.
    + split; [discriminate|]. intros [post E]. congruence.
Qed.

Lemma includes_unfold (needle s : string) :
  includes needle s =
  if String.prefix needle s then true
  else match s with
       | EmptyString => false
       | String _ s' => includes needle s'
       end.
Proof. now destruct s. Qed.

Lemma includes_spec (needle s : string) :
  includes needle s = true <-> is_substring needle s.
Proof.
  unfold is_substring. induction s as [|y s IH];
    rewrite includes_unfold;
    match goal with |- context [String.prefix ?a ?b] =>
      destruct (String.prefix a b) eqn:P end.
  - split; [intros _|reflexivity].
    apply prefix_spec in P. destruct P as [post E]. now exists EmptyString, post.
  - split; [discriminate|]. intros [pre [post E]].
    destruct pre; [|discriminate]. simpl in E.
    assert (String.prefix needle EmptyString = true)
      by (apply prefix_spec; now exists post).
    congruence.
  - split; [intros _|reflexivity].
    apply prefix_spec in P. destruct P as [post E]. now exists EmptyString, post.
  - rewrite IH. split; intros [pre [post E]].
    + exists (String y pre), post. simpl. now rewrite E.
    + destruct pre as [|z pre].
      * simpl in E.
        assert (String.prefix needle (String y s) = true)
          by (apply prefix_spec; now exists post).
        congruence.
      * simpl in E. injection E as _ E. now exists pre, post.
Qed.

(** Deleting one by one the keys of [ks] that contain [rid] is a filter. *)
Lemma invalidate_loop rid (ks : list string) m :
  fold_left
    (fun m key => if includes rid key then JsMap.delete key m else m) ks m
  = filter
      (fun p => negb (existsb (fun key => includes rid key
                                          && String.eqb key (fst p)) ks)) m.
Proof.
  revert m. induction ks as [|k ks IH]; intros m; simpl.
  - induction m as [|p m IHm]; simpl; [reflexivity|]. now f_equal.
  - rewrite IH. destruct (includes rid k); simpl.
    + unfold JsMap.delete.
      induction m as [|p m IHm]; simpl; [reflexivity|].
      destruct (String.eqb k (fst p)); simpl; [exact IHm|].
      destruct (existsb _ ks); simpl; [exact IHm|now f_equal].
    + reflexivity.
Qed.

(** Unique keys are an invariant of the cache: every operation keeps
    them unique, so every cache built from [create] has them. *)
Lemma message_cache_wf_preserved c :
  JsMap.wf (cache c) ->
  (forall now key, JsMap.wf (cache (snd (get now key c))))
  /\ (forall now now_evict key msgs q,
        JsMap.wf (cache (set now now_evict key msgs q c)))
  /\ (forall rid, JsMap.wf (cache (invalidateRoom rid c))).
Proof.
  intros Wf. split; [|split].
  - intros now key. unfold get.
    destruct (JsMap.get key (cache c)) as [e|]; [|exact Wf].
    destruct (_ >? _); simpl.
    + now apply jsmap_wf_delete.
    + now apply jsmap_wf_set, jsmap_wf_delete.
  - intros now now_evict key msgs q. unfold set, evictLRU.
    destruct (_ >=? _); [destruct (String.eqb _ _)|]; simpl;
      apply jsmap_wf_set; auto using jsmap_wf_delete.
  - intros rid. unfold invalidateRoom. simpl. rewrite invalidate_loop.
    now apply jsmap_wf_filter.
Qed.

End MessageCacheFacts.

Section MessageCacheClaims.
Context {IMessage : Type}.
Implicit Types (c : MessageCache.t IMessage).

Import MessageCache.

(** C5, in the form the code satisfies.
    When [set] finds the cache at capacity, with some
    entry fetched before the clock reading of [evictLRU] and no empty
    key, it evicts the entry with the smallest [lastFetch] (the first
    such in iteration order) and increments [evictions], whether or not
    [cacheKey] is already present; with a new key the size afterwards is
    the capacity again, the victim is gone and the new entry is there. *)
Theorem set_at_capacity_evicts_least_recently_fetched
  c (now now_evict : Z) (cacheKey : string) (msgs : list IMessage)
  (q : string) :
  JsMap.wf (cache c) ->
  JsMap.size (cache c) = maxSize c ->
  (exists p, In p (cache c) /\ lastFetch (snd p) < now_evict) ->
  ~ In EmptyString (JsMap.keys (cache c)) ->
  exists before victim ve after,
    lru_split (cache c) before victim ve after
    /\ cache (set now now_evict cacheKey msgs q c)
       = JsMap.set cacheKey (mkEntry msgs now now q) (before ++ after)
    /\ evictions (stats (set now now_evict cacheKey msgs q c))
       = evictions (stats c) + 1
    /\ hits (stats (set now now_evict cacheKey msgs q c)) = hits (stats c)
    /\ misses (stats (set now now_evict cacheKey msgs q c))
       = misses (stats c)
    /\ (JsMap.get cacheKey (cache c) = None ->
        JsMap.size (cache (set now now_evict cacheKey msgs q c)) = maxSize c
        /\ JsMap.get victim (cache (set now now_evict cacheKey msgs q c))
           = None
        /\ JsMap.get cacheKey (cache (set now now_evict cacheKey msgs q c))
           = Some (mkEntry msgs now now q)).
Proof.
  intros Wf Full Old NoEmpty.
  destruct (evictLRU_spec c now_evict Wf Old NoEmpty)
    as (before & victim & ve & after & Sp & Ev).
  exists before, victim, ve, after. split; [exact Sp|].
  unfold set. rewrite Full.
  replace (maxSize c >=? maxSize c) with true
    by (symmetry; apply Z.geb_le; lia).
  rewrite Ev. simpl. do 4 (split; [reflexivity|]).
  intros New. apply jsmap_get_none in New.
  destruct Sp as (Em & _).
  assert (Wf' : JsMap.wf (before ++ (victim, ve) :: after))
    by now rewrite <- Em.
  assert (Nk : ~ In cacheKey (JsMap.keys (before ++ after))).
  { intros I. apply New. rewrite Em. rewrite jsmap_keys_app in *. simpl.
    rewrite in_app_iff in *. simpl. tauto. }
  assert (Nv : ~ In victim (JsMap.keys (before ++ after))).
  { unfold JsMap.wf in Wf'. rewrite jsmap_keys_app in *. simpl in Wf'.
    now apply NoDup_remove_2 in Wf'. }
  assert (Hne : victim <> cacheKey).
  { intros ->. apply New. rewrite Em, jsmap_keys_app. simpl.
    apply in_app_iff. right. now left. }
  rewrite (jsmap_set_absent _ _ _ Nk). repeat split.
  - rewrite <- Full, Em, !jsmap_size_app. unfold JsMap.size. cbn [Datatypes.length].
    lia.
  - apply jsmap_get_none. rewrite jsmap_keys_app, in_app_iff. simpl.
    intros [I|[E|[]]]; [now apply Nv|congruence].
  - rewrite (jsmap_get_app_absent _ _ _ Nk). simpl.
    now rewrite String.eqb_refl.
Qed.

(** C6, in the form the code satisfies.
    For an entry that is present, [get] returns
    nothing once [now > timestamp + ttl], strictly: it then counts a
    miss and deletes the entry on that call, so the size goes down by
    one.  Up to and including [now = timestamp + ttl] it counts a hit,
    returns the messages and moves the entry, its [lastFetch] set to
    [now], to the most recent end of the order. *)
Theorem get_expires_strictly_after_ttl c (now : Z) (cacheKey : string)
  (e : CacheEntry IMessage) :
  JsMap.wf (cache c) ->
  JsMap.get cacheKey (cache c) = Some e ->
  (now > timestamp e + ttl c ->
   fst (get now cacheKey c) = None
   /\ misses (stats (snd (get now cacheKey c))) = misses (stats c) + 1
   /\ hits (stats (snd (get now cacheKey c))) = hits (stats c)
   /\ JsMap.get cacheKey (cache (snd (get now cacheKey c))) = None
   /\ JsMap.size (cache (snd (get now cacheKey c)))
      = JsMap.size (cache c) - 1)
  /\ (now <= timestamp e + ttl c ->
      fst (get now cacheKey c) = Some (messages e)
      /\ hits (stats (snd (get now cacheKey c))) = hits (stats c) + 1
      /\ misses (stats (snd (get now cacheKey c))) = misses (stats c)
      /\ cache (snd (get now cacheKey c))
         = JsMap.delete cacheKey (cache c)
           ++ [(cacheKey,
                mkEntry (messages e) (timestamp e) now (query e))]).
Proof.
  intros Wf G. unfold get. rewrite G. split; intros Hn.
  - replace (now - timestamp e >? ttl c) with true
      by (symmetry; apply Z.gtb_lt; lia).
    simpl. repeat split.
    + apply jsmap_get_none, jsmap_keys_delete_notin.
    + destruct (jsmap_in_split _ _ _ (jsmap_get_in _ _ _ G)) as (m1 & m2 & E).
      rewrite E in Wf |- *. rewrite (jsmap_delete_middle _ _ _ _ Wf).
      rewrite !jsmap_size_app. unfold JsMap.size. cbn [Datatypes.length]. lia.
  - replace (now - timestamp e >? ttl c) with false
      by (symmetry; rewrite Z.gtb_ltb; apply Z.ltb_ge; lia).
    simpl. repeat split.
    apply jsmap_set_absent, jsmap_keys_delete_notin.
Qed.

(** C8.  [invalidateRoom rid] removes exactly the entries whose key
    contains [rid] as a substring: what is left is the cache filtered,
    in its order, whatever that order was, and the counters, the
    capacity and the time to live are untouched. *)
Theorem invalidateRoom_removes_exactly_matching c (rid : string) :
  cache (invalidateRoom rid c)
  = filter (fun p => negb (includes rid (fst p))) (cache c)
  /\ (forall k e, In (k, e) (cache (invalidateRoom rid c)) <->
                  In (k, e) (cache c) /\ ~ is_substring rid k)
  /\ stats (invalidateRoom rid c) = stats c
  /\ maxSize (invalidateRoom rid c) = maxSize c
  /\ ttl (invalidateRoom rid c) = ttl c.
Proof.
  assert (E : cache (invalidateRoom rid c)
              = filter (fun p => negb (includes rid (fst p))) (cache c)).
  { unfold invalidateRoom. simpl. rewrite invalidate_loop.
    apply filter_ext_in. intros p Ip. f_equal.
    destruct (includes rid (fst p)) eqn:Inc.
    - apply existsb_exists. exists (fst p). split.
      + unfold JsMap.keys. now apply in_map.
      + now rewrite Inc, String.eqb_refl.
    - apply Bool.not_true_is_false. intros H.
      apply existsb_exists in H. destruct H as (k & _ & H).
      apply andb_prop in H. destruct H as [H1 H2].
      apply String.eqb_eq in H2. congruence. }
  split; [exact E|]. split; [|now repeat split].
  intros k e. rewrite E, filter_In. simpl.
  rewrite <- includes_spec. destruct (includes rid k); simpl;
    intuition congruence.
Qed.

End MessageCacheClaims.

(** C5 does not hold as the specification words it:
    the cache is at capacity and
    ["room2-b"] is present, yet setting it again evicts ["room1-a"]. *)
Lemma set_existing_key_at_capacity_evicts :
  JsMap.size (MessageCache.cache Samples.cache_full)
  = MessageCache.maxSize Samples.cache_full
  /\ JsMap.has "room2-b" (MessageCache.cache Samples.cache_full) = true
  /\ MessageCache.evictions
       (MessageCache.stats
          (MessageCache.set 10 10 "room2-b" ["m3"] "q2" Samples.cache_full))
     = 1
  /\ JsMap.keys
       (MessageCache.cache
          (MessageCache.set 10 10 "room2-b" ["m3"] "q2" Samples.cache_full))
     = ["room2-b"].
Proof. repeat split. Qed.

(** What the statement of C5 above leaves out: when no entry was fetched before the
    clock reading of [evictLRU], nothing is evicted and the cache grows
    past its capacity. *)
Example set_in_the_same_millisecond_evicts_nothing :
  MessageCache.evictions
    (MessageCache.stats
       (MessageCache.set 5 5 "room3-c" ["m3"] "q3" Samples.cache_same_ms))
  = 0
  /\ JsMap.size
       (MessageCache.cache
          (MessageCache.set 5 5 "room3-c" ["m3"] "q3" Samples.cache_same_ms))
     = 3.
Proof. split; reflexivity. Qed.

(** C6 does not hold as the specification words it:
    at [now = timestamp + ttl] the entry
    is still served and counted as a hit. *)
Lemma get_at_ttl_boundary_is_a_hit :
  30000 >= 0 + MessageCache.ttl Samples.cache_one
  /\ fst (MessageCache.get 30000 "room1-a" Samples.cache_one) = Some ["m1"]
  /\ MessageCache.hits
       (MessageCache.stats
          (snd (MessageCache.get 30000 "room1-a" Samples.cache_one))) = 1
  /\ JsMap.size
       (MessageCache.cache
          (snd (MessageCache.get 30000 "room1-a" Samples.cache_one))) = 1.
Proof. repeat split. vm_compute. discriminate. Qed.

(** The eviction theorem at [Samples.cache_full] and a new key. *)
Lemma set_at_capacity_witness :
  exists before victim ve after,
    MessageCache.lru_split (MessageCache.cache Samples.cache_full)
      before victim ve after
    /\ MessageCache.cache Samples.cache_full_set
       = JsMap.set "room3-c" (MessageCache.mkEntry ["m3"] 10 10 "q3")
           (before ++ after)
    /\ MessageCache.evictions (MessageCache.stats Samples.cache_full_set)
       = MessageCache.evictions (MessageCache.stats Samples.cache_full) + 1
    /\ MessageCache.hits (MessageCache.stats Samples.cache_full_set)
       = MessageCache.hits (MessageCache.stats Samples.cache_full)
    /\ MessageCache.misses (MessageCache.stats Samples.cache_full_set)
       = MessageCache.misses (MessageCache.stats Samples.cache_full)
    /\ (JsMap.get "room3-c" (MessageCache.cache Samples.cache_full) = None ->
        JsMap.size (MessageCache.cache Samples.cache_full_set)
        = MessageCache.maxSize Samples.cache_full
        /\ JsMap.get victim (MessageCache.cache Samples.cache_full_set) = None
        /\ JsMap.get "room3-c" (MessageCache.cache Samples.cache_full_set)
           = Some (MessageCache.mkEntry ["m3"] 10 10 "q3")).
Proof.
  apply (set_at_capacity_evicts_least_recently_fetched
           Samples.cache_full 10 11 "room3-c" ["m3"] "q3").
  - unfold JsMap.wf. simpl. repeat constructor; simpl; intuition discriminate.
  - reflexivity.
  - exists ("room1-a", MessageCache.mkEntry ["m1"] 1 1 "q1").
    split; [now left|simpl; lia].
  - simpl. intuition discriminate.
Defined.

(** The expiry theorem at [Samples.cache_one], one millisecond past the
    time to live and exactly at it. *)
Lemma get_expiry_witness :
  (fst (MessageCache.get 30001 "room1-a" Samples.cache_one) = None
   /\ JsMap.size
        (MessageCache.cache
           (snd (MessageCache.get 30001 "room1-a" Samples.cache_one)))
      = JsMap.size (MessageCache.cache Samples.cache_one) - 1)
  /\ fst (MessageCache.get 30000 "room1-a" Samples.cache_one) = Some ["m1"].
Proof.
  assert (Wf : JsMap.wf (MessageCache.cache Samples.cache_one)).
  { unfold JsMap.wf. simpl. repeat constructor. simpl. tauto. }
  split.
  - destruct (get_expires_strictly_after_ttl Samples.cache_one 30001
                "room1-a" (MessageCache.mkEntry ["m1"] 0 0 "q1") Wf eq_refl)
      as [Late _].
    destruct (Late ltac:(simpl; lia)) as (R & _ & _ & _ & Sz).
    split; [exact R|exact Sz].
  - destruct (get_expires_strictly_after_ttl Samples.cache_one 30000
                "room1-a" (MessageCache.mkEntry ["m1"] 0 0 "q1") Wf eq_refl)
      as [_ Early].
    destruct (Early ltac:(simpl; lia)) as (R & _).
    exact R.
Defined.

(* ================================================================== *)
(** * The query cache *)

Section QueryCacheFacts.
Import UseMessages.
Implicit Types (qc : JsMap.t Selector) (i : Inputs).

(** A miss appends the new selector and, when that makes 101 entries,
    drops the head of the iteration order. *)
Lemma query_memo_miss i qc :
  JsMap.wf qc ->
  JsMap.get (cacheKey i) qc = None ->
  query_memo i qc =
  (newQuery (rid i) (hideSysMessages i) (showThreadsInMainChannel i),
   let qc1 := qc ++ [(cacheKey i,
                      newQuery (rid i) (hideSysMessages i)
                        (showThreadsInMainChannel i))] in
   if JsMap.size qc1 >? 100 then tl qc1 else qc1).
Proof.
  intros Wf G. unfold query_memo. rewrite G.
  apply jsmap_get_none in G. rewrite (jsmap_set_absent _ _ _ G).
  cbv zeta. f_equal.
  destruct (JsMap.size _ >? 100); [|reflexivity].
  pose proof (jsmap_wf_snoc qc (cacheKey i)
                (newQuery (rid i) (hideSysMessages i)
                   (showThreadsInMainChannel i)) Wf G) as Wf1.
  destruct (qc ++ _) as [|[k v] r] eqn:E; [reflexivity|].
  simpl JsMap.keys. cbv iota. simpl tl.
  apply (jsmap_delete_middle [] r k v Wf1).
Qed.

Lemma jsmap_wf_snoc_tl qc (k : string) (v : Selector) :
  JsMap.wf qc -> ~ In k (JsMap.keys qc) ->
  JsMap.wf (qc ++ [(k, v)]) /\ JsMap.wf (tl (qc ++ [(k, v)])).
Proof.
  intros Wf G. pose proof (jsmap_wf_snoc qc k v Wf G) as W.
  split; [exact W|now apply jsmap_wf_tl].
Qed.

(** From a well-formed cache of at most 100 entries, any sequence of
    lookups leaves a well-formed cache of at most 100 entries whose keys
    are the last of the keys there were and the keys inserted since. *)
Lemma query_cache_run_invariant (ins : list Inputs) : forall qc,
  JsMap.wf qc -> JsMap.size qc <= 100 ->
  JsMap.wf (run ins qc)
  /\ JsMap.size (run ins qc) <= 100
  /\ exists dropped,
       JsMap.keys qc ++ inserted ins qc = dropped ++ JsMap.keys (run ins qc).
Proof.
  induction ins as [|i r IH]; intros qc Wf Sz.
  - simpl. repeat split; auto. exists []. now rewrite app_nil_r.
  - change (run (i :: r) qc) with (run r (snd (query_memo i qc))).
    cbn [inserted].
    destruct (JsMap.get (cacheKey i) qc) as [v|] eqn:G.
    + assert (Hq : query_memo i qc = (v, qc))
        by (unfold query_memo; now rewrite G).
      rewrite Hq. simpl snd. now apply IH.
    + rewrite (query_memo_miss i qc Wf G). cbv zeta. simpl snd.
      apply jsmap_get_none in G.
      set (nq := newQuery _ _ _).
      destruct (jsmap_wf_snoc_tl qc (cacheKey i) nq Wf G) as [W1 W2].
      assert (S1 : JsMap.size (qc ++ [(cacheKey i, nq)]) = JsMap.size qc + 1)
        by (rewrite jsmap_size_app; reflexivity).
      destruct (Z.gtb_spec (JsMap.size (qc ++ [(cacheKey i, nq)])) 100)
        as [Gt|Le].
      * destruct (qc ++ [(cacheKey i, nq)]) as [|p t] eqn:E.
        { unfold JsMap.size in Gt. simpl in Gt. lia. }
        simpl tl in *.
        assert (St : JsMap.size t <= 100).
        { unfold JsMap.size in *. simpl Datatypes.length in S1. lia. }
        destruct (IH t W2 St) as (A & B & dropped & D).
        repeat split; auto. exists (fst p :: dropped).
        replace (JsMap.keys qc ++ cacheKey i :: inserted r t)
          with (JsMap.keys (qc ++ [(cacheKey i, nq)]) ++ inserted r t)
          by (rewrite jsmap_keys_app, <- app_assoc; reflexivity).
        rewrite E. simpl. now rewrite D.
      * destruct (IH _ W1 Le) as (A & B & dropped & D).
        repeat split; auto. exists dropped. rewrite <- D.
        rewrite jsmap_keys_app, <- app_assoc. reflexivity.
Qed.

(** C9.  Starting from the empty cache, after any sequence of lookups
    the query cache holds at most 100 entries, and its keys are the most
    recently inserted ones in insertion order: what has been removed is
    what was inserted first.  A lookup that misses with 100 entries in
    the cache removes the first key in iteration order.  A lookup that
    hits returns the stored selector, whatever would be computed, and
    leaves the cache and its order as they are, so being used does not
    save an entry from removal. *)
Theorem query_cache_bounded_fifo :
  (forall ins, JsMap.size (run ins JsMap.empty) <= 100)
  /\ (forall ins, exists dropped,
        inserted ins JsMap.empty
        = dropped ++ JsMap.keys (run ins JsMap.empty))
  /\ (forall i k v rest,
        JsMap.wf ((k, v) :: rest) ->
        JsMap.size ((k, v) :: rest) = 100 ->
        JsMap.get (cacheKey i) ((k, v) :: rest) = None ->
        snd (query_memo i ((k, v) :: rest))
        = rest ++ [(cacheKey i,
                    newQuery (rid i) (hideSysMessages i)
                      (showThreadsInMainChannel i))])
  /\ (forall i qc cached,
        JsMap.get (cacheKey i) qc = Some cached ->
        query_memo i qc = (cached, qc)).
Proof.
  assert (W0 : JsMap.wf (@JsMap.empty Selector)) by constructor.
  assert (S0 : JsMap.size (@JsMap.empty Selector) <= 100)
    by (unfold JsMap.size; simpl; lia).
  split; [|split; [|split]].
  - intros ins. now destruct (query_cache_run_invariant ins _ W0 S0) as (_ & H & _).
  - intros ins.
    destruct (query_cache_run_invariant ins _ W0 S0) as (_ & _ & d & H).
    now exists d.
  - intros i k v rest Wf Sz G.
    rewrite (query_memo_miss i _ Wf G). cbv zeta. cbn [snd].
    rewrite jsmap_size_app, Sz. reflexivity.
  - intros i qc cached G. unfold query_memo. now rewrite G.
Qed.

End QueryCacheFacts.

(** The last part of [query_cache_bounded_fifo] at a stored selector:
    the inputs of the lookup would give another one. *)
Lemma query_cache_hit_witness :
  UseMessages.query_memo Samples.lookup_hit Samples.query_cache_one
  = (Samples.selector_one, Samples.query_cache_one).
Proof.
  apply (proj2 (proj2 (proj2 query_cache_bounded_fifo))).
  reflexivity.
Defined.

(** First in, first out, and not least recently used: ["0"] is looked up
    just before ["100"] is inserted, and it is ["0"] that goes. *)
Example query_cache_evicts_the_entry_just_used :
  JsMap.has "0"
    (UseMessages.run (map Samples.lookup_of (seq 0 100) ++ [Samples.lookup_of 0])
       JsMap.empty) = true
  /\ JsMap.has "0"
       (UseMessages.run Samples.lookups_fill_touch_insert JsMap.empty) = false
  /\ JsMap.has "1"
       (UseMessages.run Samples.lookups_fill_touch_insert JsMap.empty) = true
  /\ JsMap.size
       (UseMessages.run Samples.lookups_fill_touch_insert JsMap.empty) = 100.
Proof. vm_compute. repeat split. Qed.

(* ================================================================== *)
(** * The activity tracker *)

Section ActivityTrackerFacts.
Import ActivityTracker.
Implicit Types (s : t) (out : list Emitted).

(** A step emits nothing and keeps the activity state, or emits the one
    event of the transition it makes. *)
Lemma step_emits now i s s1 out :
  step now i s = Some (s1, out) ->
  (out = [] /\ isUserActive s1 = isUserActive s)
  \/ (out = [inactive] /\ isUserActive s = true /\ isUserActive s1 = false)
  \/ (out = [active] /\ isUserActive s = false /\ isUserActive s1 = true).
Proof.
  destruct s as [tm act la it bc].
  assert (In_ : forall s0 r, onUserInactive s0 = r ->
            (snd r = [] /\ isUserActive (fst r) = isUserActive s0)
            \/ (snd r = [inactive] /\ isUserActive s0 = true
                /\ isUserActive (fst r) = false)).
  { intros [tm0 act0 la0 it0 bc0] r <-. unfold onUserInactive.
    destruct act0; simpl; auto. }
  assert (Ac_ : forall s0 r, onActivity now s0 = r ->
            (snd r = [] /\ isUserActive (fst r) = isUserActive s0)
            \/ (snd r = [active] /\ isUserActive s0 = false
                /\ isUserActive (fst r) = true)).
  { intros [tm0 act0 la0 it0 bc0] r <-. unfold onActivity.
    destruct act0; simpl; auto. }
  destruct i as [e|hidden| | | | |time]; simpl; intros H.
  - injection H as H. destruct (Ac_ _ _ H) as [?|?]; simpl in *; tauto.
  - destruct hidden; injection H as H.
    + destruct (In_ _ _ H) as [?|?]; simpl in *; tauto.
    + destruct (Ac_ _ _ H) as [?|?]; simpl in *; tauto.
  - injection H as H. destruct (Ac_ _ _ H) as [?|?]; simpl in *; tauto.
  - injection H as <- <-. left. now split.
  - destruct tm as [d|]; [|discriminate].
    destruct (d <=? now); [|discriminate]. injection H as H.
    destruct (In_ _ _ H) as [?|?]; simpl in *; tauto.
  - destruct bc as [|d rest]; [discriminate|].
    destruct (d <=? now); [|discriminate].
    destruct (now - la >? 1000); injection H as H.
    + destruct (In_ _ _ H) as [?|?]; simpl in *; tauto.
    + inversion H. left. now split.
  - injection H as <- <-. left. now split.
Qed.

Lemma run_alternates ins : forall s s' out,
  run ins s = Some (s', out) ->
  alternates (isUserActive s) out
  /\ state_after (isUserActive s) out = isUserActive s'.
Proof.
  induction ins as [|[now i] r IH]; intros s s' out; simpl.
  - intros H. injection H as <- <-. now split.
  - destruct (step now i s) as [[s1 out1]|] eqn:St; [|discriminate].
    destruct (run r s1) as [[s2 out2]|] eqn:Rn; [|discriminate].
    intros H. injection H as <- <-.
    destruct (IH _ _ _ Rn) as [A B].
    destruct (step_emits _ _ _ _ _ St)
      as [[-> E]|[(-> & E1 & E2)|(-> & E1 & E2)]]; simpl.
    + now rewrite <- E.
    + rewrite E1. rewrite E2 in A, B. auto.
    + rewrite E1. rewrite E2 in A, B. auto.
Qed.

Lemma alternates_app cur out1 out2 :
  alternates cur (out1 ++ out2) ->
  alternates cur out1 /\ alternates (state_after cur out1) out2.
Proof.
  revert cur. induction out1 as [|e r IH]; intros cur; simpl; [tauto|].
  destruct e; intros [E A]; destruct (IH _ A); auto.
Qed.

Lemma state_after_false cur out :
  state_after cur out = false ->
  (out = [] /\ cur = false) \/ exists out', out = out' ++ [inactive].
Proof.
  induction out as [|e r _] using rev_ind; [now left|].
  unfold state_after. rewrite fold_left_app. simpl.
  destruct e; [discriminate|]. right. now exists r.
Qed.

End ActivityTrackerFacts.

Section ActivityTrackerClaims.
Import ActivityTracker.

(** C10.  Whatever the inputs to a tracker since its creation, and
    whichever of the inactivity timer, a hidden tab and a deferred blur
    check attempts the transition, the events emitted alternate,
    [inactive] first: between two [inactive] events there is an
    [active] one, and every [active] event comes right after an
    [inactive] one, so none is emitted while the user counts as
    active. *)
Theorem tracker_events_alternate (now0 threshold : Z)
  (ins : list (Z * Input)) (s' : t) (out : list Emitted) :
  run ins (create now0 threshold) = Some (s', out) ->
  alternates true out
  /\ (forall l1 mid l2,
        out = l1 ++ inactive :: mid ++ inactive :: l2 -> In active mid)
  /\ (forall l1 l2,
        out = l1 ++ active :: l2 -> exists l0, l1 = l0 ++ [inactive]).
Proof.
  intros R. destruct (run_alternates _ _ _ _ R) as [A _].
  change (isUserActive (create now0 threshold)) with true in A.
  split; [exact A|]. split.
  - intros l1 mid l2 E. rewrite E in A.
    apply alternates_app in A. destruct A as [_ A]. simpl in A.
    destruct A as [_ A]. destruct mid as [|[|] mid]; simpl in A.
    + destruct A. discriminate.
    + now left.
    + destruct A. discriminate.
  - intros l1 l2 E. rewrite E in A.
    apply alternates_app in A. destruct A as [_ [A _]].
    apply state_after_false in A. destruct A as [[_ A]|A];
      [discriminate|exact A].
Qed.

Lemma to_int32_in_range (x : Z) :
  -2147483648 <= x <= 2147483647 -> to_int32 x = x.
Proof.
  intros H. unfold to_int32. rewrite Z.mod_small; lia.
Qed.

Lemma due_in_range (now delay : Z) :
  0 <= delay <= 2147483647 -> due now delay = now + delay.
Proof.
  intros H. unfold due. rewrite to_int32_in_range; lia.
Qed.

(** C4, in the form the code satisfies.
    For a [time] from 0 to [2^31 - 1], [updateInactiveTime time] at
    [now] replaces the pending timeout by one due at [now + time],
    counted from the call and not from the last activity: the timer
    cannot fire before that and can from then on.  The last activity,
    the activity state and the deferred blur checks stay as they are
    and nothing is emitted. *)
Theorem updateInactiveTime_restarts_countdown (s : t) (now time : Z) :
  0 <= time <= 2147483647 ->
  inactiveTimer (updateInactiveTime now time s) = Some (now + time)
  /\ inactiveTime (updateInactiveTime now time s) = time
  /\ lastActivity (updateInactiveTime now time s) = lastActivity s
  /\ isUserActive (updateInactiveTime now time s) = isUserActive s
  /\ blurChecks (updateInactiveTime now time s) = blurChecks s
  /\ step now (UpdateInactiveTime time) s
     = Some (updateInactiveTime now time s, [])
  /\ forall at_,
       (at_ < now + time ->
        step at_ InactiveTimerFires (updateInactiveTime now time s) = None)
       /\ (now + time <= at_ ->
           step at_ InactiveTimerFires (updateInactiveTime now time s)
           <> None).
Proof.
  intros Range.
  assert (T : inactiveTimer (updateInactiveTime now time s)
              = Some (now + time))
    by (unfold updateInactiveTime, resetActivityTracking;
        cbn [inactiveTimer inactiveTime]; now rewrite due_in_range).
  split; [exact T|]. do 5 (split; [reflexivity|]).
  intros at_. cbn [step]. rewrite T. split; intros H.
  - now destruct (Z.leb_spec (now + time) at_); [lia|].
  - destruct (Z.leb_spec (now + time) at_); [|lia]. discriminate.
Qed.

End ActivityTrackerClaims.

(** [tracker_events_alternate] on a run with every kind of input. *)
Lemma tracker_events_alternate_witness :
  ActivityTracker.alternates true
    [ActivityTracker.inactive; ActivityTracker.active;
     ActivityTracker.inactive; ActivityTracker.active].
Proof.
  refine (proj1 (tracker_events_alternate 0 1000 Samples.tracker_day
                   (ActivityTracker.mkTracker (Some 5000) true 4000 1000 [])
                   _ _)).
  reflexivity.
Defined.

(** C1 at its failing input: the pointer moves at 900, the timer set at
    creation comes due at 1000 and [inactive] is emitted, 100 ms after
    the last activity with a threshold of 1000 ms. *)
Lemma timer_emits_inactive_100ms_after_activity :
  ActivityTracker.run Samples.activity_then_timer Samples.tracker_1s
  = Some (ActivityTracker.mkTracker None false 900 1000 [],
          [ActivityTracker.inactive])
  /\ 1000 - 900 < ActivityTracker.inactiveTime Samples.tracker_1s.
Proof. split; [reflexivity|simpl; lia]. Qed.

(** C4 does not hold as the specification words it:
    the last activity was at 0, the call
    comes at 500 with one second, and the timer is due at 1500, not at
    1000. *)
Lemma updateInactiveTime_counts_from_the_call :
  ActivityTracker.lastActivity (ActivityTracker.create 0 5000) = 0
  /\ ActivityTracker.inactiveTimer (ActivityTracker.create 0 5000)
     = Some 5000
  /\ ActivityTracker.inactiveTimer
       (ActivityTracker.updateInactiveTime 500 1000
          (ActivityTracker.create 0 5000))
     = Some (500 + 1000)
  /\ ActivityTracker.inactiveTimer
       (ActivityTracker.updateInactiveTime 500 1000
          (ActivityTracker.create 0 5000))
     <> Some (ActivityTracker.lastActivity (ActivityTracker.create 0 5000)
              + 1000).
Proof. repeat split. discriminate. Qed.

(* ================================================================== *)
(** * The room preserver *)

Section RoomPreserverClaims.
Import RoomPreserver.
Context {RoomStore : Type}.
Variable store_update :
  RoomStore -> option Z -> option Z -> option bool -> RoomStore.

(** C7, in the form the code satisfies.
    [restore] on a held snapshot evaluates to
    [undefined] whether or not it applied, and empties the slot.  When
    the open room is not the room of the snapshot, [RoomManager] and its
    stores are left as they are.  When it is, the store of that room is
    updated with the scroll, last time and at-bottom values of the
    snapshot, and nothing else changes; without a store for that room
    nothing changes either. *)
Theorem restore_applies_only_to_the_open_room
  (rm : RoomManager RoomStore) (d : PreservedRoomData) :
  fst (fst (restore store_update rm (Some d))) = undefined
  /\ snd (restore store_update rm (Some d)) = None
  /\ (opened rm <> Some (rid d) ->
      snd (fst (restore store_update rm (Some d))) = rm)
  /\ (opened rm = Some (rid d) ->
      forall store, getStore (rid d) rm = Some store ->
        snd (fst (restore store_update rm (Some d)))
        = mkRoomManager (opened rm)
            (JsMap.set (rid d)
               (store_update store (scroll d) (lastTime d) (atBottom d))
               (rooms rm))
        /\ getStore (rid d) (snd (fst (restore store_update rm (Some d))))
           = Some (store_update store (scroll d) (lastTime d) (atBottom d)))
  /\ (getStore (rid d) rm = None ->
      snd (fst (restore store_update rm (Some d))) = rm).
Proof.
  unfold restore, opened_is. cbn [fst snd].
  split; [reflexivity|]. split; [reflexivity|]. split; [|split].
  - intros Hne. destruct (opened rm) as [o|]; [|reflexivity].
    destruct (String.eqb_spec o (rid d)); [congruence|reflexivity].
  - intros -> store G. rewrite String.eqb_refl, G. split; [reflexivity|].
    unfold getStore in *. simpl. now apply jsmap_get_set_present with store.
  - intros G. rewrite G. now destruct (opened rm) as [o|]; [destruct (_ =? _)%string|].
Qed.

End RoomPreserverClaims.

(** C7 does not hold as the specification words it:
    with another room open, [restore]
    leaves the stores alone but evaluates to [undefined], not to
    [false]; and with the room still open it applies the snapshot and
    evaluates to [undefined] as well, not to [true]. *)
Lemma restore_reports_nothing :
  RoomPreserver.opened Samples.room2_open
  <> Some (RoomPreserver.rid Samples.snapshot_room1)
  /\ RoomPreserver.restore RoomPreserver.sample_update Samples.room2_open
       (Some Samples.snapshot_room1)
     = (RoomPreserver.undefined, Samples.room2_open, None)
  /\ fst (fst (RoomPreserver.restore RoomPreserver.sample_update
                 Samples.room2_open (Some Samples.snapshot_room1)))
     <> RoomPreserver.boolean false
  /\ fst (fst (RoomPreserver.restore RoomPreserver.sample_update
                 Samples.room1_open (Some Samples.snapshot_room1)))
     <> RoomPreserver.boolean true.
Proof. repeat split; discriminate. Qed.

(** [restore_applies_only_to_the_open_room] with ["room1"] still open:
    its store takes the values of the snapshot. *)
Lemma restore_open_room_witness :
  RoomPreserver.getStore "room1"
    (snd (fst (RoomPreserver.restore RoomPreserver.sample_update
                 Samples.room1_open (Some Samples.snapshot_room1))))
  = Some (RoomPreserver.mkSample (Some 120) (Some 1000) (Some false)).
Proof.
  destruct (restore_applies_only_to_the_open_room RoomPreserver.sample_update
              Samples.room1_open Samples.snapshot_room1)
    as (_ & _ & _ & Match & _).
  exact (proj2 (Match eq_refl
                  (RoomPreserver.mkSample (Some 0) None (Some true))
                  eq_refl)).
Defined.

(* ================================================================== *)
(** * The cleanup pass of the simple manager *)

Section SimpleManagerClaims.
Import SimpleManager.
Variable throws : External -> bool.

Ltac run_pass := cbv -[app].

Ltac split_on_throws :=
  repeat match goal with
         | |- context [throws ?e] => destruct (throws e)
         end.

(** C3.  In every cleanup pass whose listeners of [refresh/started] do
    not throw, whichever of the steps throw, what the pass asks of
    other components is [refresh/started], then each of the four steps
    in order, then [refresh/completed], once; the pass itself does not
    throw. *)
Theorem refresh_completed_follows_every_step
  (config : BackgroundRefreshConfig) (w : World) :
  throws (Listeners "refresh/started") = false ->
  fst (performRefresh throws config w) = Ok tt
  /\ exists tr,
       trace (snd (performRefresh throws config w)) = trace w ++ tr
       /\ requests tr = pass_requests.
Proof.
  intros Started. destruct w as [h tr0]. run_pass. rewrite Started.
  split_on_throws; run_pass;
    (split; [reflexivity|]); repeat rewrite <- app_assoc;
    eexists; (split; [reflexivity|]); reflexivity.
Qed.

(** C2, in the form the code satisfies.
    A cleanup pass, [preserveCurrentRoom] set or not, emits
    [refresh/started] and then, unless a listener of that event throws,
    which ends the pass there, runs the four safe steps in order and
    emits [refresh/completed].  These are all the requests it makes of
    other components: it asks the room preserver neither to preserve
    before the steps nor to restore after them.  It does not read the
    configuration, it is the same pass for any two, and it does not
    throw. *)
Theorem refresh_never_asks_the_room_preserver
  (config : BackgroundRefreshConfig) (w : World) :
  fst (performRefresh throws config w) = Ok tt
  /\ (exists tr,
        trace (snd (performRefresh throws config w)) = trace w ++ tr
        /\ requests tr
           = (if throws (Listeners "refresh/started")
              then [Emit "refresh/started"] else pass_requests)
        /\ forall m, ~ In (RoomPreserverCall m) tr)
  /\ forall config', performRefresh throws config' w
                     = performRefresh throws config w.
Proof.
  split; [|split; [|reflexivity]].
  - destruct w as [h tr0]. run_pass. split_on_throws; reflexivity.
  - destruct w as [h tr0]. run_pass.
    split_on_throws; run_pass;
      repeat rewrite <- app_assoc;
      eexists; (split; [reflexivity|]); (split; [reflexivity|]);
      intros m I; simpl in I; intuition discriminate.
Qed.

End SimpleManagerClaims.

(** [refresh_completed_follows_every_step] on a pass in which the first
    and the third step throw. *)
Lemma refresh_completed_witness :
  fst (SimpleManager.performRefresh Samples.two_steps_throw
         SimpleManager.default_config SimpleManager.world0)
  = SimpleManager.Ok tt
  /\ exists tr,
       SimpleManager.trace
         (snd (SimpleManager.performRefresh Samples.two_steps_throw
                 SimpleManager.default_config SimpleManager.world0))
       = SimpleManager.trace SimpleManager.world0 ++ tr
       /\ SimpleManager.requests tr = SimpleManager.pass_requests.
Proof.
  apply (refresh_completed_follows_every_step Samples.two_steps_throw
           SimpleManager.default_config SimpleManager.world0).
  reflexivity.
Defined.

(** C2 does not hold as the specification words it:
    [preserveCurrentRoom] is set and
    nothing throws, and the requests of the pass are the event, the
    four steps and the event, with no request to preserve before the
    first step nor to restore after the last. *)
Lemma refresh_with_preserve_enabled_skips_the_preserver :
  SimpleManager.preserveCurrentRoom SimpleManager.default_config = true
  /\ SimpleManager.requests
       (SimpleManager.trace
          (snd (SimpleManager.performRefresh Samples.nothing_throws
                  SimpleManager.default_config SimpleManager.world0)))
     = SimpleManager.pass_requests
  /\ ~ In (SimpleManager.RoomPreserverCall SimpleManager.preserve)
          (SimpleManager.trace
             (snd (SimpleManager.performRefresh Samples.nothing_throws
                     SimpleManager.default_config SimpleManager.world0)))
  /\ ~ In (SimpleManager.RoomPreserverCall SimpleManager.restore)
          (SimpleManager.trace
             (snd (SimpleManager.performRefresh Samples.nothing_throws
                     SimpleManager.default_config SimpleManager.world0))).
Proof.
  split; [reflexivity|]. split; [reflexivity|].
  split; vm_compute; intuition discriminate.
Qed.

(** C3 does not hold as the specification words it:
    when a listener of [refresh/started] throws, the pass ends there:
    no step runs and [refresh/completed] is not emitted. *)
Lemma refresh_started_listener_throws_ends_the_pass :
  SimpleManager.requests
    (SimpleManager.trace
       (snd (SimpleManager.performRefresh Samples.started_listener_throws
               SimpleManager.default_config SimpleManager.world0)))
  = [SimpleManager.Emit "refresh/started"]
  /\ ~ In (SimpleManager.Emit "refresh/completed")
          (SimpleManager.trace
             (snd (SimpleManager.performRefresh
                     Samples.started_listener_throws
                     SimpleManager.default_config SimpleManager.world0)))
  /\ forall e,
       ~ In (SimpleManager.Call e)
            (SimpleManager.trace
               (snd (SimpleManager.performRefresh
                       Samples.started_listener_throws
                       SimpleManager.default_config SimpleManager.world0))).
Proof.
  split; [reflexivity|].
  split; [|intros e]; vm_compute; intuition discriminate.
Qed.

(** [updateInactiveTime_restarts_countdown] on a tracker created at 0
    with five seconds, given one second at 500. *)
Lemma updateInactiveTime_witness :
  ActivityTracker.inactiveTimer
    (ActivityTracker.updateInactiveTime 500 1000
       (ActivityTracker.create 0 5000)) = Some (500 + 1000)
  /\ ActivityTracker.lastActivity
       (ActivityTracker.updateInactiveTime 500 1000
          (ActivityTracker.create 0 5000))
     = ActivityTracker.lastActivity (ActivityTracker.create 0 5000).
Proof.
  destruct (updateInactiveTime_restarts_countdown
              (ActivityTracker.create 0 5000) 500 1000 ltac:(lia))
    as (T & _ & L & _).
  split; [exact T|exact L].
Defined.

(** Past the range of C4: a threshold of [2^31] milliseconds is a
    negative 32-bit delay, and the timer is due at the call. *)
Example updateInactiveTime_beyond_int32_is_due_at_once :
  ActivityTracker.inactiveTimer
    (ActivityTracker.updateInactiveTime 500 2147483648
       (ActivityTracker.create 0 5000)) = Some 500
  /\ ActivityTracker.step 500 ActivityTracker.InactiveTimerFires
       (ActivityTracker.updateInactiveTime 500 2147483648
          (ActivityTracker.create 0 5000))
     = Some (ActivityTracker.mkTracker None false 0 2147483648 [],
             [ActivityTracker.inactive]).
Proof. split; reflexivity. Qed.

(* ================================================================== *)
(** * More facts about [JsMap] *)

Section JsMapLookups.
Context {V : Type}.
Implicit Types (m : JsMap.t V) (k : string) (v : V).

Lemma jsmap_get_set_eq m k v : JsMap.get k (JsMap.set k v m) = Some v.
Proof.
  induction m as [|[k' v'] r IH]; simpl.
  - now rewrite String.eqb_refl.
  - destruct (String.eqb_spec k k') as [->|Hne]; simpl.
    + now rewrite String.eqb_refl.
    + destruct (String.eqb_spec k k'); [congruence|exact IH].
Qed.


Lemma jsmap_in_set m k v p :
  In p (JsMap.set k v m) -> p = (k, v) \/ In p m.
Proof.
  induction m as [|[k' v'] r IH]; simpl.
  - intros [<-|[]]. now left.
  - destruct (String.eqb_spec k k') as [->|Hne]; simpl.
    + intros [<-|I]; auto.
    + intros [<-|I]; auto. destruct (IH I); auto.
Qed.

Lemma jsmap_size_set_le m k v :
  JsMap.size (JsMap.set k v m) <= JsMap.size m + 1.
Proof.
  unfold JsMap.size. induction m as [|[k' v'] r IH]; simpl; [lia|].
  destruct (String.eqb k k'); simpl Datatypes.length; lia.
Qed.

Lemma jsmap_size_filter_le m (f : string * V -> bool) :
  JsMap.size (filter f m) <= JsMap.size m.
Proof.
  unfold JsMap.size. pose proof (filter_length_le f m). lia.
Qed.

Lemma jsmap_size_delete_present m k v :
  JsMap.get k m = Some v -> JsMap.size (JsMap.delete k m) < JsMap.size m.
Proof.
  unfold JsMap.size, JsMap.delete.
  induction m as [|[k' v'] r IH]; simpl; [discriminate|].
  destruct (String.eqb_spec k k') as [->|Hne]; simpl.
  - intros _. pose proof (filter_length_le
                            (fun p => negb (String.eqb k' (fst p))) r). lia.
  - intros G. specialize (IH G). lia.
Qed.


Lemma jsmap_wf_unique m p q :
  JsMap.wf m -> In p m -> In q m -> fst p = fst q -> p = q.
Proof.
  unfold JsMap.wf. induction m as [|x r IH]; simpl; [tauto|].
  intros N Ip Iq E. inversion N as [|? ? Hx Hr]; subst.
  destruct Ip as [<-|Ip], Iq as [<-|Iq]; auto.
  - exfalso. apply Hx. rewrite E. unfold JsMap.keys. now apply in_map.
  - exfalso. apply Hx. rewrite <- E. unfold JsMap.keys. now apply in_map.
Qed.

Lemma jsmap_set_same m k v : JsMap.get k m = Some v -> JsMap.set k v m = m.
Proof.
  induction m as [|[k' v'] r IH]; simpl; [discriminate|].
  destruct (String.eqb_spec k k') as [->|Hne].
  - now intros [= ->].
  - intros G. f_equal. now apply IH.
Qed.

(** A loop that deletes the key of every element of [xs] that passes
    [f] is a filter on the map. *)
Lemma jsmap_delete_loop {X : Type} (f : X -> bool) (g : X -> string)
  (xs : list X) m :
  fold_left (fun m x => if f x then JsMap.delete (g x) m else m) xs m
  = filter
      (fun p => negb (existsb (fun x => f x && String.eqb (g x) (fst p)) xs))
      m.
Proof.
  revert m. induction xs as [|x xs IH]; intros m; simpl.
  - induction m as [|p m IHm]; simpl; [reflexivity|]. now f_equal.
  - rewrite IH. destruct (f x); simpl; [|reflexivity].
    unfold JsMap.delete.
    induction m as [|p m IHm]; simpl; [reflexivity|].
    destruct (String.eqb (g x) (fst p)); simpl; [exact IHm|].
    destruct (existsb _ xs); simpl; [exact IHm|now f_equal].
Qed.

End JsMapLookups.

(* ================================================================== *)
(** * The message cache along sequences of calls *)

Section MessageCacheRunFacts.
Context {IMessage : Type}.
Implicit Types (c : MessageCache.t IMessage)
  (o : MessageCacheRuns.Op IMessage).

Import MessageCache MessageCacheRuns.


(** X2.  [cleanup] at [now] removes exactly the entries created more
    than [ttl] before [now] and keeps the others in their order; the
    counters are not touched. *)
Theorem cleanup_removes_exactly_the_expired c (now : Z) :
  JsMap.wf (cache c) ->
  cache (cleanup now c)
  = filter (fun p => negb (expired now (ttl c) (snd p))) (cache c)
  /\ stats (cleanup now c) = stats c
  /\ (forall k e, In (k, e) (cache (cleanup now c)) ->
                  In (k, e) (cache c) /\ now <= timestamp e + ttl c)
  /\ (forall k e, In (k, e) (cache c) -> now <= timestamp e + ttl c ->
                  In (k, e) (cache (cleanup now c))).
Proof.
  intros Wf.
  assert (E : cache (cleanup now c)
              = filter (fun p => negb (expired now (ttl c) (snd p)))
                       (cache c)).
  { unfold cleanup. simpl.
    rewrite (jsmap_delete_loop
               (fun p => now - timestamp (snd p) >? ttl c) fst).
    apply filter_ext_in. intros p Ip. f_equal. unfold expired.
    destruct (now - timestamp (snd p) >? ttl c) eqn:Ex.
    - apply existsb_exists. exists p. split; [exact Ip|].
      now rewrite Ex, String.eqb_refl.
    - apply Bool.not_true_is_false. intros H.
      apply existsb_exists in H. destruct H as (x & Ix & H).
      apply andb_prop in H. destruct H as [H1 H2].
      apply String.eqb_eq in H2.
      rewrite (jsmap_wf_unique _ _ _ Wf Ix Ip H2) in H1. congruence. }
  split; [exact E|]. split; [reflexivity|]. split.
  - intros k e I. rewrite E in I. apply filter_In in I.
    destruct I as [I Ne]. split; [exact I|]. unfold expired in Ne.
    simpl in Ne. apply Bool.negb_true_iff in Ne.
    rewrite Z.gtb_ltb in Ne. apply Z.ltb_ge in Ne. lia.
  - intros k e I Hn. rewrite E. apply filter_In. split; [exact I|].
    unfold expired. simpl. apply Bool.negb_true_iff.
    rewrite Z.gtb_ltb. apply Z.ltb_ge. lia.
Qed.

Lemma apply_counters o c :
  hits (stats (apply o c)) + misses (stats (apply o c))
  = hits (stats c) + misses (stats c) + (if is_get o then 1 else 0)
  /\ hits (stats c) <= hits (stats (apply o c))
  /\ misses (stats c) <= misses (stats (apply o c))
  /\ evictions (stats c) <= evictions (stats (apply o c))
  /\ evictions (stats (apply o c))
     <= evictions (stats c) + (if is_set o then 1 else 0).
Proof.
  destruct o as [now k|now ne k msgs q|rid|now]; simpl.
  - unfold get. destruct (JsMap.get k (cache c)) as [e|]; simpl; [|lia].
    destruct (_ >? _); simpl; lia.
  - unfold set, evictLRU. destruct (_ >=? _);
      [destruct (String.eqb _ _)|]; simpl; lia.
  - lia.
  - lia.
Qed.

(** X3.  Along any sequence of [get], [set], [invalidateRoom] and
    [cleanup], every [get] counts as exactly one hit or one miss and
    nothing else does, no counter ever goes down, and there are at most
    as many evictions as calls of [set]. *)
Theorem counters_account_for_every_get
  (ops : list (Op IMessage)) c :
  hits (stats (run ops c)) + misses (stats (run ops c))
  = hits (stats c) + misses (stats c) + count is_get ops
  /\ hits (stats c) <= hits (stats (run ops c))
  /\ misses (stats c) <= misses (stats (run ops c))
  /\ evictions (stats c) <= evictions (stats (run ops c))
  /\ evictions (stats (run ops c)) <= evictions (stats c) + count is_set ops.
Proof.
  revert c. induction ops as [|o r IH]; intros c.
  - unfold run, count. simpl. lia.
  - change (run (o :: r) c) with (run r (apply o c)).
    specialize (IH (apply o c)). pose proof (apply_counters o c) as A.
    unfold count in *. simpl filter.
    destruct (is_get o), (is_set o); cbn [Datatypes.length]; lia.
Qed.

End MessageCacheRunFacts.

Section MessageCacheBound.
Context {IMessage : Type}.
Implicit Types (c : MessageCache.t IMessage)
  (o : MessageCacheRuns.Op IMessage).

Import MessageCache MessageCacheRuns.

Lemma within_capacity_filter t c (f : string * CacheEntry IMessage -> bool)
  (s : CacheStats) :
  within_capacity t c ->
  within_capacity t (mkCache (filter f (cache c)) (maxSize c) (ttl c) s).
Proof.
  intros (Wf & Sz & En). repeat split; simpl.
  - now apply jsmap_wf_filter.
  - pose proof (jsmap_size_filter_le (cache c) f). lia.
  - apply filter_In in H. now apply En.
  - apply filter_In in H. now apply En.
Qed.

Lemma within_capacity_later t t' c :
  t <= t' -> within_capacity t c -> within_capacity t' c.
Proof.
  intros Le (Wf & Sz & En). repeat split; auto.
  - destruct (En p H). lia.
  - now destruct (En p H).
Qed.

Lemma within_capacity_no_empty_key t c :
  within_capacity t c -> ~ In EmptyString (JsMap.keys (cache c)).
Proof.
  intros (_ & _ & En) I. unfold JsMap.keys in I. apply in_map_iff in I.
  destruct I as (p & E & I). now destruct (En p I).
Qed.

(** One call keeps a cache within capacity when it comes in order. *)
Lemma apply_within_capacity o (r : list (Op IMessage)) t c :
  1 <= maxSize c ->
  within_capacity t c ->
  chronological t (o :: r) ->
  exists t', within_capacity t' (apply o c)
             /\ chronological t' r
             /\ maxSize (apply o c) = maxSize c.
Proof.
  intros M I Ch. destruct o as [now k|now ne k msgs q|rid|now]; simpl in *.
  - destruct Ch as [Le Ch]. exists now. split; [|split; [exact Ch|]].
    + apply (within_capacity_later t now _ Le) in I.
      unfold get. destruct (JsMap.get k (cache c)) as [e|] eqn:G; simpl.
      * destruct (_ >? _); simpl.
        -- now apply within_capacity_filter.
        -- destruct I as (Wf & Sz & En). repeat split; simpl.
           ++ now apply jsmap_wf_set, jsmap_wf_delete.
           ++ pose proof (jsmap_size_set_le (JsMap.delete k (cache c)) k
                            (mkEntry (messages e) (timestamp e) now
                               (query e))).
              pose proof (jsmap_size_delete_present _ _ _ G). lia.
           ++ apply jsmap_in_set in H. destruct H as [->|H]; simpl; [lia|].
              apply jsmap_in_delete in H. now apply En.
           ++ apply jsmap_in_set in H. destruct H as [->|H]; simpl.
              ** apply jsmap_get_in in G. now destruct (En _ G).
              ** apply jsmap_in_delete in H. now apply En.
      * exact I.
    + unfold get. destruct (JsMap.get k (cache c)); [|reflexivity].
      now destruct (_ >? _).
  - destruct Ch as (Lt & Le & Kn & Ch). exists ne.
    split; [|split; [exact Ch|]].
    + unfold set.
      destruct (JsMap.size (cache c) >=? maxSize c) eqn:Ge.
      * apply Z.geb_le in Ge.
        pose proof (within_capacity_no_empty_key _ _ I) as Ne.
        destruct I as (Wf & Sz & En).
        assert (Old : exists p, In p (cache c) /\ lastFetch (snd p) < ne).
        { destruct (cache c) as [|p m] eqn:E.
          - unfold JsMap.size in Ge. simpl in Ge. lia.
          - exists p. split; [now left|].
            destruct (En p (or_introl eq_refl)). lia. }
        destruct (evictLRU_spec c ne Wf Old Ne)
          as (before & victim & ve & after & (Em & _) & Ev).
        rewrite Ev. simpl.
        assert (Sub : forall p, In p (before ++ after) -> In p (cache c)).
        { intros p Ip. rewrite Em. rewrite in_app_iff in *. simpl. tauto. }
        repeat split; simpl.
        -- apply jsmap_wf_set. unfold JsMap.wf in *.
           rewrite Em, jsmap_keys_app in Wf. simpl in Wf.
           apply NoDup_remove_1 in Wf. now rewrite jsmap_keys_app.
        -- pose proof (jsmap_size_set_le (before ++ after) k
                         (mkEntry msgs now now q)).
           rewrite Em in Sz. rewrite jsmap_size_app in *.
           unfold JsMap.size in *. cbn [Datatypes.length] in Sz. lia.
        -- apply jsmap_in_set in H. destruct H as [->|H]; simpl; [lia|].
           destruct (En p (Sub p H)). lia.
        -- apply jsmap_in_set in H. destruct H as [->|H]; simpl; [exact Kn|].
           now destruct (En p (Sub p H)).
      * rewrite Z.geb_leb in Ge. apply Z.leb_gt in Ge.
        destruct I as (Wf & Sz & En). repeat split; simpl.
        -- now apply jsmap_wf_set.
        -- pose proof (jsmap_size_set_le (cache c) k
                         (mkEntry msgs now now q)). lia.
        -- apply jsmap_in_set in H. destruct H as [->|H]; simpl; [lia|].
           destruct (En p H). lia.
        -- apply jsmap_in_set in H. destruct H as [->|H]; simpl; [exact Kn|].
           now destruct (En p H).
    + unfold set, evictLRU. destruct (_ >=? _);
        [destruct (String.eqb _ _)|]; reflexivity.
  - exists t. split; [|split; [exact Ch|reflexivity]].
    unfold invalidateRoom, with_cache. rewrite invalidate_loop.
    now apply within_capacity_filter.
  - destruct Ch as [Le Ch]. exists now. split; [|split; [exact Ch|reflexivity]].
    apply (within_capacity_later t now _ Le) in I.
    unfold cleanup, with_cache.
    rewrite (jsmap_delete_loop
               (fun p => now - timestamp (snd p) >? ttl c) fst).
    now apply within_capacity_filter.
Qed.

Lemma run_within_capacity (ops : list (Op IMessage)) : forall t c,
  1 <= maxSize c ->
  within_capacity t c ->
  chronological t ops ->
  exists t', within_capacity t' (run ops c) /\ maxSize (run ops c) = maxSize c.
Proof.
  induction ops as [|o r IH]; intros t c M I Ch.
  - exists t. now split.
  - change (run (o :: r) c) with (run r (apply o c)).
    destruct (apply_within_capacity o r t c M I Ch) as (t1 & I1 & Ch1 & M1).
    destruct (IH t1 (apply o c)) as (t2 & I2 & M2); auto; [lia|].
    exists t2. split; [exact I2|congruence].
Qed.

(** X4.  A cache created with a capacity of at least one never holds
    more entries than its capacity, along any sequence of calls in which
    the clock does not go back, every [set] comes at least a
    millisecond after the call before it and no key is the empty
    string; its keys stay unique. *)
Theorem capacity_holds_on_chronological_runs
  (ops : list (Op IMessage)) (t0 capacity timeToLive : Z) :
  1 <= capacity ->
  chronological t0 ops ->
  JsMap.size (cache (run ops (create IMessage capacity timeToLive)))
  <= capacity
  /\ JsMap.wf (cache (run ops (create IMessage capacity timeToLive))).
Proof.
  intros M Ch.
  assert (I0 : within_capacity t0 (create IMessage capacity timeToLive)).
  { split; [constructor|]. split; [unfold JsMap.size; simpl; lia|].
    intros p []. }
  destruct (run_within_capacity ops t0
              (create IMessage capacity timeToLive) M I0 Ch)
    as (t' & (Wf & Sz & _) & Mx).
  simpl in Mx. rewrite Mx in Sz. now split.
Qed.

End MessageCacheBound.

Section JsMapOthers.
Context {V : Type}.
Implicit Types (m : JsMap.t V) (k : string) (v : V).

Lemma jsmap_get_delete_neq m k k' :
  k <> k' -> JsMap.get k (JsMap.delete k' m) = JsMap.get k m.
Proof.
  intros Hne. induction m as [|[k2 v2] r IH]; simpl; [reflexivity|].
  destruct (String.eqb_spec k' k2) as [->|H2]; simpl.
  - destruct (String.eqb_spec k k2); [congruence|exact IH].
  - destruct (String.eqb_spec k k2); [reflexivity|exact IH].
Qed.


End JsMapOthers.

Section MessageCacheUse.
Context {IMessage : Type}.
Implicit Types (c : MessageCache.t IMessage).

Import MessageCache MessageCacheRuns.

Lemma get_keeps_ttl c now key : ttl (snd (get now key c)) = ttl c.
Proof.
  unfold get. destruct (JsMap.get key (cache c)); [|reflexivity].
  now destruct (_ >? _).
Qed.

Lemma get_after_set c (now now_evict now' : Z) (key : string)
  (msgs : list IMessage) (q : string) :
  now' <= now + ttl c ->
  fst (get now' key (set now now_evict key msgs q c)) = Some msgs.
Proof.
  intros Hn. unfold get.
  replace (JsMap.get key (cache (set now now_evict key msgs q c)))
    with (Some (mkEntry msgs now now q))
    by (unfold set; simpl; symmetry; apply jsmap_get_set_eq).
  replace (ttl (set now now_evict key msgs q c)) with (ttl c)
    by (unfold set, evictLRU; destruct (_ >=? _);
        [destruct (String.eqb _ _)|]; reflexivity).
  cbn [timestamp messages].
  replace (now' - now >? ttl c) with false
    by (symmetry; rewrite Z.gtb_ltb; apply Z.ltb_ge; lia).
  reflexivity.
Qed.


(** Lookups under a key whose entry is within its time to live are all
    served from that entry. *)
Lemma fetch_each_served (key : string) (found : list IMessage) (t2 T : Z)
  (ls : list (Lookup IMessage)) : forall c (e : CacheEntry IMessage),
  JsMap.get key (cache c) = Some e ->
  messages e = found -> timestamp e = t2 -> ttl c = T ->
  (forall l, In l ls -> at_get l <= t2 + T) ->
  fst (fetch_each key ls c) = map (fun _ => found) ls.
Proof.
  induction ls as [|l r IH]; intros c e G Me Te Tc All; [reflexivity|].
  cbn [fetch_each map]. unfold fetch, get. rewrite G.
  replace (at_get l - timestamp e >? ttl c) with false
    by (symmetry; rewrite Z.gtb_ltb; apply Z.ltb_ge;
        specialize (All l (or_introl eq_refl)); lia).
  set (c1 := mkCache _ _ _ _).
  specialize (IH c1 (mkEntry (messages e) (timestamp e) (at_get l) (query e))).
  destruct (fetch_each key r c1) as [rs c2]. cbn [fst] in *.
  rewrite Me. f_equal. apply IH; auto.
  - unfold c1. cbn [cache]. apply jsmap_get_set_eq.
  - intros l' I. apply All. now right.
Qed.

(** X6.  The lookup of [useMessages] on a miss: it returns what the
    collection gave and it reaches [set] only with the key absent from
    the cache.  However many lookups under that key follow, one after
    the other with no other call on the cache in between and each
    within [ttl] milliseconds of the miss, all of them return those same
    messages, whatever the collection would give by then. *)
Theorem fetch_miss_then_served_from_cache c (t1 t2 t3 : Z) (key : string)
  (found : list IMessage) (querySig : string) :
  fst (get t1 key c) = None ->
  fst (fetch t1 t2 t3 key found querySig c) = found
  /\ JsMap.get key (cache (snd (get t1 key c))) = None
  /\ forall ls : list (Lookup IMessage),
       (forall l, In l ls -> at_get l <= t2 + ttl c) ->
       fst (fetch_each key ls (snd (fetch t1 t2 t3 key found querySig c)))
       = map (fun _ => found) ls.
Proof.
  intros Miss. unfold fetch at 1 2.
  destruct (get t1 key c) as [[cached|] c1] eqn:G1; [discriminate|].
  cbn [fst snd]. split; [reflexivity|]. split.
  - replace c1 with (snd (get t1 key c)) by now rewrite G1.
    unfold get. destruct (JsMap.get key (cache c)) as [e|] eqn:G.
    + destruct (_ >? _) eqn:Ex; simpl.
      * apply jsmap_get_none, jsmap_keys_delete_notin.
      * unfold get in G1. rewrite G, Ex in G1. discriminate.
    + exact G.
  - intros ls All.
    assert (T : ttl c1 = ttl c)
      by (replace c1 with (snd (get t1 key c)) by (now rewrite G1);
          apply get_keeps_ttl).
    apply (fetch_each_served key found t2 (ttl c) ls _
             (mkEntry found t2 t2 querySig)); auto.
    + unfold set. cbn [cache with_cache]. apply jsmap_get_set_eq.
    + unfold set, evictLRU. destruct (_ >=? _);
        [destruct (String.eqb _ _)|]; exact T.
Qed.

End MessageCacheUse.

Section MergeFacts.
Import MergeHideSysMessages.

Lemma from_set_spec (xs : list string) : forall seen,
  NoDup (from_set seen xs)
  /\ (forall x, In x (from_set seen xs) <-> In x xs /\ ~ In x seen).
Proof.
  induction xs as [|a r IH]; intros seen; simpl.
  - split; [constructor|]. tauto.
  - destruct (existsb (String.eqb a) seen) eqn:Ex.
    + apply existsb_exists in Ex. destruct Ex as (y & Iy & E).
      apply String.eqb_eq in E. subst y.
      destruct (IH seen) as [N S]. split; [exact N|].
      intros x. rewrite S. split; [tauto|].
      intros [[<-|I] Hn]; tauto.
    + assert (Na : ~ In a seen).
      { intros I. apply Bool.not_true_iff_false in Ex. apply Ex.
        apply existsb_exists. exists a. split; [exact I|].
        apply String.eqb_refl. }
      destruct (IH (a :: seen)) as [N S]. split.
      * constructor; [|exact N]. rewrite S. simpl. tauto.
      * intros x. simpl. rewrite S. simpl.
        destruct (String.eqb_spec a x) as [->|Hne]; tauto.
Qed.

Lemma from_set_fresh (xs : list string) : forall seen,
  NoDup xs -> (forall x, In x xs -> ~ In x seen) -> from_set seen xs = xs.
Proof.
  induction xs as [|a r IH]; intros seen N F; simpl; [reflexivity|].
  inversion N as [|? ? Ha Hr]; subst.
  destruct (existsb (String.eqb a) seen) eqn:Ex.
  - apply existsb_exists in Ex. destruct Ex as (y & Iy & E).
    apply String.eqb_eq in E. subst y. exfalso. apply (F a); simpl; auto.
  - f_equal. apply IH; [exact Hr|].
    intros x Ix [<-|I]; [tauto|]. apply (F x); simpl; auto.
Qed.

(** X7.  [mergeHideSysMessages] returns every type of either list, each
    once; two lists without repetition and without a common type are
    returned as they are, the first before the second. *)
Theorem mergeHideSysMessages_is_a_union (a b : list string) :
  NoDup (mergeHideSysMessages a b)
  /\ (forall x, In x (mergeHideSysMessages a b) <-> In x a \/ In x b)
  /\ (NoDup (a ++ b) -> mergeHideSysMessages a b = a ++ b).
Proof.
  unfold mergeHideSysMessages.
  destruct (from_set_spec (a ++ b) []) as [N S].
  split; [exact N|]. split.
  - intros x. rewrite S, in_app_iff. simpl. tauto.
  - intros Nd. apply from_set_fresh; [exact Nd|]. intros x _ [].
Qed.

End MergeFacts.

(* ================================================================== *)
(** * The activity tracker along runs *)

Section ActivityTrackerRunFacts.
Import ActivityTracker ActivityTrackerRuns.

Ltac tracker_step_cases H :=
  unfold step, onActivity, onUserInactive, updateInactiveTime,
    resetActivityTracking in H;
  simpl in H;
  repeat match type of H with
         | context [match ?x with _ => _ end] => destruct x eqn:?
         end;
  try discriminate; inversion H; subst; clear H; simpl.

Lemma step_keeps_timer now i s s1 out :
  step now i s = Some (s1, out) ->
  (isUserActive s = true -> inactiveTimer s <> None) ->
  isUserActive s1 = true -> inactiveTimer s1 <> None.
Proof.
  destruct s as [tm [|] la it bc]; simpl; intros H Inv;
    tracker_step_cases H; intros; try discriminate; auto.
Qed.

Lemma run_keeps_timer ins : forall s s' out,
  run ins s = Some (s', out) ->
  (isUserActive s = true -> inactiveTimer s <> None) ->
  isUserActive s' = true -> inactiveTimer s' <> None.
Proof.
  induction ins as [|[now i] r IH]; intros s s' out; simpl.
  - intros H. now injection H as <- _.
  - destruct (step now i s) as [[s1 out1]|] eqn:St; [|discriminate].
    destruct (run r s1) as [[s2 out2]|] eqn:Rn; [|discriminate].
    intros H Inv. injection H as <- _.
    apply (IH _ _ _ Rn). now apply (step_keeps_timer _ _ _ _ _ St).
Qed.

(** X8.  After any run of a tracker since its creation, [isActive()] is
    what the last event emitted says, active when none was, and while
    the user counts as active an inactivity timeout is pending. *)
Theorem isActive_agrees_with_the_last_event (now0 threshold : Z)
  (ins : list (Z * Input)) (s' : t) (out : list Emitted) :
  run ins (create now0 threshold) = Some (s', out) ->
  isUserActive s' = state_after true out
  /\ (isUserActive s' = true -> inactiveTimer s' <> None).
Proof.
  intros R. split.
  - destruct (run_alternates _ _ _ _ R) as [_ E]. now rewrite <- E.
  - apply (run_keeps_timer _ _ _ _ R). discriminate.
Qed.

Lemma step_lastActivity now i s s1 out :
  step now i s = Some (s1, out) ->
  lastActivity s1 = if is_activity i then now else lastActivity s.
Proof.
  destruct s as [tm act la it bc]. simpl. intros H.
  tracker_step_cases H; reflexivity.
Qed.

(** X9.  [getLastActivity()] is the time of the last input, pointer,
    key, scroll or touch, focus, or the tab becoming visible, and the
    time of creation when there was none: timeouts coming due, a blur,
    the tab being hidden and a new threshold leave it as it is. *)
Theorem lastActivity_is_the_last_signal (ins : list (Z * Input)) :
  forall (s s' : t) (out : list Emitted),
  run ins s = Some (s', out) ->
  lastActivity s' = last_activity (lastActivity s) ins.
Proof.
  induction ins as [|[now i] r IH]; intros s s' out; simpl.
  - intros H. now injection H as <- _.
  - destruct (step now i s) as [[s1 out1]|] eqn:St; [|discriminate].
    destruct (run r s1) as [[s2 out2]|] eqn:Rn; [|discriminate].
    intros H. injection H as <- _.
    rewrite (IH _ _ _ Rn). now rewrite (step_lastActivity _ _ _ _ _ St).
Qed.

End ActivityTrackerRunFacts.

(* ================================================================== *)
(** * The room preserver, there and back *)

Section RoomPreserverRoundTrip.
Import RoomPreserver.
Context {RoomStore : Type}.
Variable store_scroll : RoomStore -> option Z.
Variable store_lastTime : RoomStore -> option Z.
Variable store_atBottom : RoomStore -> option bool.
Variable store_update :
  RoomStore -> option Z -> option Z -> option bool -> RoomStore.

(** X10.  When updating a store with its own values changes nothing,
    a [preserve] that takes a snapshot followed by [restore], the same
    room open and its store untouched in between, leaves [RoomManager]
    as it was and the slot empty. *)
Theorem preserve_then_restore_changes_nothing
  (rm : RoomManager RoomStore) (p : t) (d : PreservedRoomData) :
  (forall s, store_update s (store_scroll s) (store_lastTime s)
               (store_atBottom s) = s) ->
  fst (preserve store_scroll store_lastTime store_atBottom rm p) = Some d ->
  restore store_update rm
    (snd (preserve store_scroll store_lastTime store_atBottom rm p))
  = (undefined, rm, None).
Proof.
  intros Same. unfold preserve.
  destruct rm as [op rs]. simpl.
  destruct op as [roomId|]; [|discriminate].
  destruct (String.eqb roomId EmptyString); [discriminate|].
  unfold getStore. simpl.
  destruct (JsMap.get roomId rs) as [store|] eqn:G; [|discriminate].
  intros _. simpl. unfold restore, opened_is, getStore. simpl.
  rewrite String.eqb_refl, G, Same.
  now rewrite (jsmap_set_same _ _ _ G).
Qed.

End RoomPreserverRoundTrip.

(* ================================================================== *)
(** * The timers of the simple manager *)

Section SimpleManagerLifecycleFacts.
Import SimpleManagerLifecycle.

Lemma stop_one_interval m :
  map fst (intervals m)
  = match refreshTimer m with Some h => [h] | None => [] end ->
  intervals (stop m) = [] /\ refreshTimer (stop m) = None.
Proof.
  unfold stop. destruct (refreshTimer m) as [h|] eqn:E; simpl; intros H.
  - destruct (intervals m) as [|[h' p] [|x r]]; simpl in H;
      try discriminate H.
    injection H as ->. unfold clearInterval. simpl.
    now rewrite Nat.eqb_refl.
  - destruct (intervals m); [auto|discriminate H].
Qed.

Lemma stop_keeps_one_interval m :
  map fst (intervals m)
  = match refreshTimer m with Some h => [h] | None => [] end ->
  one_interval (stop m).
Proof.
  intros Iv. destruct (stop_one_interval m Iv) as [A B].
  unfold one_interval. rewrite A, B. split; [reflexivity|].
  intros _. reflexivity.
Qed.

(** Enabled or not, [updateConfig] ends in [stop]. *)
Lemma updateConfig_ends_in_stop now p m :
  fst (updateConfig now p m)
  = stop (mkManager (merge (config m) p) (refreshTimer m) (intervals m)
            (timeouts m) (nextHandle m)
            (ActivityTracker.updateInactiveTime now
               (SimpleManager.inactiveTime (merge (config m) p))
               (activityTracker m))).
Proof.
  unfold updateConfig, start. cbn [fst config].
  now destruct (SimpleManager.enabled (merge (config m) p)).
Qed.

Lemma step_one_interval now i m m' out :
  one_interval m -> step now i m = Some (m', out) -> one_interval m'.
Proof.
  intros [Iv Ac]. destruct i as [ti|p| | |h|]; cbn [step].
  - destruct (ActivityTracker.step now ti (activityTracker m))
      as [[tr emitted]|] eqn:St; [|discriminate].
    intros [= <- _].
    destruct (step_emits _ _ _ _ _ St)
      as [[-> E]|[(-> & E1 & E2)|(-> & E1 & E2)]];
      cbn [fold_left on_emitted].
    + split; simpl; [exact Iv|]. rewrite E. exact Ac.
    + unfold startRefreshCycle, one_interval. simpl.
      rewrite (Ac E1) in Iv. rewrite map_app, Iv. simpl.
      split; [reflexivity|]. rewrite E2. discriminate.
    + now apply stop_keeps_one_interval.
  - intros H. injection H as H _.
    change (fst (updateConfig now p m) = m') in H.
    rewrite <- H, updateConfig_ends_in_stop.
    now apply stop_keeps_one_interval.
  - intros [= <- _]. unfold start.
    destruct (negb _); [now split|].
    now apply stop_keeps_one_interval.
  - intros [= <- _]. now apply stop_keeps_one_interval.
  - destruct (existsb _ _); [|discriminate]. intros [= <- _]. now split.
  - destruct (timeouts m) as [|d rest]; [discriminate|].
    destruct (d <=? now); [|discriminate]. intros [= <- _]. now split.
Qed.

Lemma run_one_interval ins : forall m m' out,
  one_interval m -> run ins m = Some (m', out) -> one_interval m'.
Proof.
  induction ins as [|[now i] r IH]; intros m m' out Inv; simpl.
  - now intros [= <- _].
  - destruct (step now i m) as [[m1 out1]|] eqn:St; [|discriminate].
    destruct (run r m1) as [[m2 out2]|] eqn:Rn; [|discriminate].
    intros [= <- _]. apply (IH _ _ _ (step_one_interval _ _ _ _ _ Inv St) Rn).
Qed.

Lemma create_one_interval now : one_interval (create now).
Proof. split; [reflexivity|]. reflexivity. Qed.

(** X11.  Whatever happens to a manager since its creation, tracker
    inputs, timers, [updateConfig], [start] and [stop], at most one
    refresh interval is live, the one whose handle the manager holds,
    and none is live while the user counts as active:
    [startRefreshCycle] never leaves an interval behind that [stop] can
    no longer clear. *)
Theorem at_most_one_refresh_interval (now0 : Z) (ins : list (Z * Input))
  (m : t) (out : list Out) :
  run ins (create now0) = Some (m, out) ->
  map fst (intervals m)
  = match refreshTimer m with Some h => [h] | None => [] end
  /\ (List.length (intervals m) <= 1)%nat
  /\ (ActivityTracker.isUserActive (activityTracker m) = true ->
      intervals m = []).
Proof.
  intros R.
  destruct (run_one_interval _ _ _ _ (create_one_interval now0) R) as [Iv Ac].
  split; [exact Iv|]. split.
  - rewrite <- (length_map fst), Iv. destruct (refreshTimer m); simpl; lia.
  - intros A. rewrite (Ac A) in Iv. now destruct (intervals m).
Qed.


End SimpleManagerLifecycleFacts.

(* ================================================================== *)
(** * The cleanup history of the full reset *)

Section FullResetFacts.
Import SimpleManager.
Variable throws : External -> bool.

Ltac on_every_throw :=
  repeat match goal with
         | |- context [throws ?e] => destruct (throws e)
         end.

(** X13.  [performSafeCleanup] never throws and never reaches its own
    [catch]: each step catches what it throws, so whichever steps fail
    the four entries are pushed on the history and no error is
    logged. *)
Theorem performSafeCleanup_always_completes (w : World) :
  fst (performSafeCleanup throws w) = Ok tt
  /\ cleanupHistory (snd (performSafeCleanup throws w))
     = cleanupHistory w
       ++ ["Safe VideoConf cleanup"; "Safe VoIP cleanup";
           "Safe DOM cleanup"; "Safe microtask cleanup"]
  /\ exists tr,
       trace (snd (performSafeCleanup throws w)) = trace w ++ tr
       /\ forall msg, ~ In (Console "error" msg) tr.
Proof.
  destruct w as [h tr0]. cbv -[app]. on_every_throw; cbv -[app];
    (split; [reflexivity|]);
    (split; [repeat rewrite <- app_assoc; reflexivity|]);
    repeat rewrite <- app_assoc; eexists; (split; [reflexivity|]);
    intros msg I; simpl in I; intuition discriminate.
Qed.

(** X14.  After [performFullReset] the history is the one entry of the
    emergency mode, whatever it was before and whichever steps threw:
    the entries of the safe cleanup are overwritten before they are
    logged, and the history does not grow from pass to pass. *)
Theorem performFullReset_overwrites_the_history
  (preserveCurrentRoom : bool) (w : World) :
  fst (performFullReset throws preserveCurrentRoom w) = Ok tt
  /\ cleanupHistory (snd (performFullReset throws preserveCurrentRoom w))
     = ["EMERGENCY MODE: Performed safe cleanup only"]
  /\ exists tr,
       trace (snd (performFullReset throws preserveCurrentRoom w))
       = trace w ++ tr
       /\ forall entry, In (Console "log" entry) tr ->
            entry = "EMERGENCY MODE: Performed safe cleanup only".
Proof.
  destruct w as [h tr0]. cbv -[app]. on_every_throw; cbv -[app];
    (split; [reflexivity|]); (split; [reflexivity|]);
    repeat rewrite <- app_assoc; eexists; (split; [reflexivity|]);
    intros entry I; simpl in I;
    repeat (destruct I as [I|I]; [try discriminate; now injection I|]);
    destruct I.
Qed.

End FullResetFacts.

(* ================================================================== *)
(** * The registry of chat instances *)

Section ChatCleanupFacts.
Import ChatMessagesCleanupService.

Lemma no_colon_cons (c : ascii) (s : string) :
  MessageCache.includes ":" (String c s) = false ->
  c <> ":"%char /\ MessageCache.includes ":" s = false.
Proof.
  intros H. split.
  - intros ->. apply Bool.not_true_iff_false in H. apply H.
    apply includes_spec. now exists EmptyString, s.
  - apply Bool.not_true_is_false. intros I. apply includes_spec in I.
    destruct I as (pre & post & ->).
    apply Bool.not_true_iff_false in H. apply H.
    apply includes_spec. now exists (String c pre), post.
Qed.

Lemma colon_split_unique (a : string) : forall a' b b' : string,
  MessageCache.includes ":" a = false ->
  MessageCache.includes ":" a' = false ->
  (a ++ ":" ++ b)%string = (a' ++ ":" ++ b')%string ->
  a = a' /\ b = b'.
Proof.
  induction a as [|c a IH]; intros a' b b' Na Na' E.
  - destruct a' as [|c' a']; simpl in E.
    + injection E as ->. now split.
    + injection E as <- _. apply no_colon_cons in Na'. now destruct Na'.
  - destruct a' as [|c' a']; simpl in E.
    + injection E as -> _. apply no_colon_cons in Na. now destruct Na.
    + injection E as -> E. apply no_colon_cons in Na, Na'.
      destruct (IH a' b b') as [-> ->]; tauto.
Qed.

Lemma colon_in_thread_key (a b : string) :
  MessageCache.includes ":" (a ++ ":" ++ b) = true.
Proof. apply includes_spec. now exists a, b. Qed.

(** X15.  For room ids without a colon, [getKey] gives two instances the
    same key only when they are of the same room and the same thread,
    an empty thread id counting as none: no registration overwrites
    that of another room or thread. *)
Theorem getKey_is_injective (rid1 rid2 : string)
  (tmid1 tmid2 : option string) :
  MessageCache.includes ":" rid1 = false ->
  MessageCache.includes ":" rid2 = false ->
  getKey rid1 tmid1 = getKey rid2 tmid2 ->
  rid1 = rid2 /\ thread_of tmid1 = thread_of tmid2.
Proof.
  intros N1 N2. unfold getKey, thread_of.
  destruct tmid1 as [t1|]; [destruct (String.eqb t1 EmptyString)|];
    (destruct tmid2 as [t2|]; [destruct (String.eqb t2 EmptyString)|]);
    intros E; try (now split).
  all: try (exfalso; rewrite E, colon_in_thread_key in N1; discriminate).
  all: try (exfalso; rewrite <- E, colon_in_thread_key in N2; discriminate).
  destruct (colon_split_unique _ _ _ _ N1 N2 E) as [-> ->]. now split.
Qed.

Lemma clean_loop_instances (ks : list string) : forall acc,
  instances (fold_left clean_one ks acc)
  = fold_left (fun m k => if true then JsMap.delete k m else m) ks
      (instances acc).
Proof.
  induction ks as [|k r IH]; intros acc; simpl; [reflexivity|].
  rewrite IH. f_equal. unfold clean_one.
  destruct (JsMap.get k (instances acc)) as [info|];
    [destruct (instance info)|]; reflexivity.
Qed.

Lemma kept_is_not_to_clean cutoff pr (p : string * ChatInstanceInfo) :
  negb (is_preserved pr (snd p)) && negb (lastUsed (snd p) >? cutoff)
  = negb (kept cutoff pr p).
Proof. unfold kept. now rewrite Bool.negb_orb. Qed.

(** The instances [performCleanup] leaves. *)
Lemma performCleanup_instances cutoff pr (m : t) :
  JsMap.wf m ->
  instances (performCleanup cutoff pr m) = filter (kept cutoff pr) m.
Proof.
  intros Wf. unfold performCleanup. rewrite clean_loop_instances. simpl.
  rewrite (jsmap_delete_loop (fun _ => true) (fun k => k)).
  apply filter_ext_in. intros p Ip. unfold instancesToClean.
  destruct (kept cutoff pr p) eqn:K.
  - apply Bool.negb_true_iff, Bool.not_true_is_false. intros H.
    apply existsb_exists in H. destruct H as (k & Ik & E).
    simpl in E. apply String.eqb_eq in E. subst k.
    apply in_map_iff in Ik. destruct Ik as (q & Eq & Iq).
    apply filter_In in Iq. destruct Iq as [Iq Kq].
    rewrite kept_is_not_to_clean in Kq.
    rewrite (jsmap_wf_unique _ _ _ Wf Iq Ip Eq) in Kq.
    rewrite K in Kq. discriminate.
  - apply Bool.negb_false_iff, existsb_exists. exists (fst p). split.
    + apply in_map, filter_In. split; [exact Ip|].
      now rewrite kept_is_not_to_clean, K.
    + simpl. apply String.eqb_refl.
Qed.

Lemma clean_one_released acc key :
  released (clean_one acc key)
  = released acc ++ (if release_called (instances acc) key then [key] else [])
  /\ cleanedCount acc <= cleanedCount (clean_one acc key)
     <= cleanedCount acc
        + (if release_called (instances acc) key then 1 else 0).
Proof.
  unfold clean_one, release_called, has_release.
  destruct (JsMap.get key (instances acc)) as [info|];
    [destruct (instance info)|]; simpl; rewrite ?app_nil_r;
    (split; [reflexivity|lia]).
Qed.

(** What the second loop calls, given that no key comes twice. *)
Lemma clean_loop_released (ks : list string) : forall acc,
  NoDup ks ->
  released (fold_left clean_one ks acc)
  = released acc ++ filter (release_called (instances acc)) ks
  /\ cleanedCount acc <= cleanedCount (fold_left clean_one ks acc)
     <= cleanedCount acc
        + Z.of_nat (List.length
                      (filter (release_called (instances acc)) ks)).
Proof.
  induction ks as [|k r IH]; intros acc N; simpl.
  - rewrite app_nil_r. split; [reflexivity|lia].
  - inversion N as [|? ? Hk Hr]; subst.
    destruct (IH (clean_one acc k) Hr) as [R C].
    assert (F : filter (release_called (instances (clean_one acc k))) r
                = filter (release_called (instances acc)) r).
    { apply filter_ext_in. intros k0 I0.
      assert (k0 <> k) by (intros ->; tauto).
      unfold release_called.
      replace (instances (clean_one acc k))
        with (JsMap.delete k (instances acc)).
      - now rewrite jsmap_get_delete_neq.
      - unfold clean_one.
        destruct (JsMap.get k (instances acc)) as [info|];
          [destruct (instance info)|]; reflexivity. }
    rewrite F in R, C. rewrite R. clear R F IH.
    destruct (clean_one_released acc k) as [R1 C1]. rewrite R1.
    destruct (release_called (instances acc) k);
      cbn [Datatypes.length]; rewrite <- app_assoc; simpl;
      (split; [reflexivity|lia]).
Qed.

(** X16.  [performCleanup] removes exactly the instances that are
    neither of the preserved room nor used after the cutoff and keeps
    the others in their order, also when a [release] throws; it calls
    [release] on the removed instances that have one, in order, and
    counts at most those. *)
Theorem performCleanup_removes_exactly_the_idle (cutoffTime : Z)
  (preserveRoom : option string) (m : t) :
  JsMap.wf m ->
  instances (performCleanup cutoffTime preserveRoom m)
  = filter (kept cutoffTime preserveRoom) m
  /\ released (performCleanup cutoffTime preserveRoom m)
     = map fst
         (filter (fun p => negb (kept cutoffTime preserveRoom p)
                           && has_release (snd p)) m)
  /\ 0 <= cleanedCount (performCleanup cutoffTime preserveRoom m)
     <= Z.of_nat
          (List.length (released (performCleanup cutoffTime preserveRoom m))).
Proof.
  intros Wf. split; [now apply performCleanup_instances|].
  assert (N : NoDup (instancesToClean cutoffTime preserveRoom m)).
  { unfold instancesToClean. now apply (jsmap_wf_filter m). }
  destruct (clean_loop_released _ (mkCleaned m [] 0) N) as [R C].
  unfold performCleanup. simpl in R, C. rewrite R. split; [|lia].
  unfold instancesToClean. clear R C N.
  induction m as [|p m IH]; simpl; [reflexivity|].
  assert (Wm : JsMap.wf m) by now apply (jsmap_wf_tl (p :: m)).
  rewrite kept_is_not_to_clean.
  assert (G : forall l : list (string * ChatInstanceInfo),
            (forall q, In q l -> In q m) ->
            filter (release_called (p :: m)) (map fst l)
            = filter (release_called m) (map fst l)).
  { intros l Sub. apply filter_ext_in. intros k Ik.
    apply in_map_iff in Ik. destruct Ik as (q & <- & Iq).
    unfold release_called. simpl. destruct p as [kp vp].
    destruct (String.eqb_spec (fst q) kp) as [E|_]; [|reflexivity].
    exfalso. unfold JsMap.wf in Wf. simpl in Wf.
    inversion Wf as [|? ? Hn _]; subst. apply Hn.
    unfold JsMap.keys. apply in_map. now apply Sub. }
  destruct (kept cutoffTime preserveRoom p); simpl.
  - rewrite G; [now apply IH|]. intros q Iq. apply filter_In in Iq. tauto.
  - destruct p as [kp vp]. unfold release_called at 1. simpl.
    rewrite String.eqb_refl.
    destruct (has_release vp); simpl; [f_equal|];
      (rewrite G; [now apply IH|]);
      intros q Iq; apply filter_In in Iq; tauto.
Qed.

(** X17.  An instance just registered survives every cleanup whose
    cutoff lies before its registration, and [unregisterInstance]
    removes it again. *)
Theorem registered_instance_survives_cleanup (now cutoffTime : Z)
  (room : string) (thread preserveRoom : option string)
  (inst : Instance) (m : t) :
  JsMap.wf m ->
  cutoffTime < now ->
  JsMap.get (getKey room thread)
    (instances (performCleanup cutoffTime preserveRoom
                  (registerInstance now room thread inst m)))
  = Some (mkInfo room thread now inst)
  /\ JsMap.get (getKey room thread)
       (unregisterInstance room thread
          (registerInstance now room thread inst m)) = None.
Proof.
  intros Wf Lt. split.
  - assert (W : JsMap.wf (registerInstance now room thread inst m))
      by now apply jsmap_wf_set.
    rewrite (performCleanup_instances _ _ _ W).
    pose proof (jsmap_get_in _ _ _
                  (jsmap_get_set_eq m (getKey room thread)
                     (mkInfo room thread now inst))) as I.
    assert (I' : In (getKey room thread, mkInfo room thread now inst)
                    (filter (kept cutoffTime preserveRoom)
                       (registerInstance now room thread inst m))).
    { apply filter_In. split; [exact I|]. unfold kept. simpl.
      apply Bool.orb_true_iff. right. apply Z.gtb_lt. lia. }
    pose proof (jsmap_wf_filter _ (kept cutoffTime preserveRoom) W) as Wk.
    destruct (JsMap.get (getKey room thread)
                (filter (kept cutoffTime preserveRoom)
                   (registerInstance now room thread inst m)))
      as [v|] eqn:G.
    + apply jsmap_get_in in G.
      pose proof (jsmap_wf_unique _ _ _ Wk G I' eq_refl) as E.
      now injection E as ->.
    + apply jsmap_get_none in G. exfalso. apply G.
      unfold JsMap.keys. now apply (in_map fst) in I'.
  - apply jsmap_get_none, jsmap_keys_delete_notin.
Qed.

End ChatCleanupFacts.

(* ================================================================== *)
(** * Clearing the cached collections of local storage *)

Section StorageFacts.
Import MessageSystemResetManager.

(** X18.  [clearCachedCollections] removes exactly the keys that contain
    ["message"], ["chat"] or ["rocketchat_"] and neither ["user"] nor
    ["login"], and keeps every other key with its value, in order: a
    key that contains ["user"] or ["login"] is never removed. *)
Theorem clearCachedCollections_spares_user_and_login (ls : Storage) :
  clearCachedCollections ls
  = filter (fun p => negb (is_cache_key (fst p) && is_removable (fst p))) ls
  /\ forall k v, In (k, v) ls ->
       MessageCache.is_substring "user" k
       \/ MessageCache.is_substring "login" k ->
       In (k, v) (clearCachedCollections ls).
Proof.
  assert (E : clearCachedCollections ls
              = filter (fun p => negb (is_cache_key (fst p)
                                       && is_removable (fst p))) ls).
  { unfold clearCachedCollections.
    rewrite (jsmap_delete_loop is_removable (fun k => k)).
    apply filter_ext_in. intros p Ip. f_equal.
    destruct (is_cache_key (fst p) && is_removable (fst p)) eqn:C.
    - apply andb_prop in C. destruct C as [C1 C2].
      apply existsb_exists. exists (fst p). split.
      + apply filter_In. split; [|exact C1].
        unfold JsMap.keys. now apply in_map.
      + now rewrite C2, String.eqb_refl.
    - apply Bool.not_true_is_false. intros H.
      apply existsb_exists in H. destruct H as (k & Ik & H).
      apply andb_prop in H. destruct H as [H1 H2].
      apply String.eqb_eq in H2. subst k.
      apply filter_In in Ik. destruct Ik as [_ Ck].
      rewrite Ck, H1 in C. discriminate. }
  split; [exact E|].
  intros k v I H. rewrite E. apply filter_In. split; [exact I|].
  simpl. apply Bool.negb_true_iff, Bool.andb_false_iff. right.
  unfold is_removable. rewrite <- !includes_spec in H.
  destruct H as [-> | ->]; simpl; [reflexivity|].
  apply Bool.andb_false_r.
Qed.

End StorageFacts.

(* ================================================================== *)
(** * The properties above on concrete states *)


Lemma samples_cache_full_wf : JsMap.wf (MessageCache.cache Samples.cache_full).
Proof.
  unfold JsMap.wf. simpl. repeat constructor; simpl; intuition discriminate.
Defined.

(** [cleanup_removes_exactly_the_expired] on [Samples.cache_full], two
    milliseconds past the time to live of its first entry. *)
Lemma cleanup_witness :
  MessageCache.cache (MessageCache.cleanup 30002 Samples.cache_full)
  = [("room2-b", MessageCache.mkEntry ["m2"] 2 2 "q2")].
Proof.
  exact (proj1 (cleanup_removes_exactly_the_expired Samples.cache_full 30002
                  samples_cache_full_wf)).
Defined.

(** [capacity_holds_on_chronological_runs] on [MoreSamples.busy_calls]. *)
Lemma capacity_witness :
  JsMap.size
    (MessageCache.cache
       (MessageCacheRuns.run MoreSamples.busy_calls
          (MessageCache.create string 2 30000))) <= 2
  /\ JsMap.wf
       (MessageCache.cache
          (MessageCacheRuns.run MoreSamples.busy_calls
             (MessageCache.create string 2 30000))).
Proof.
  apply (capacity_holds_on_chronological_runs MoreSamples.busy_calls 0 2
           30000).
  - lia.
  - simpl. repeat split; try lia; discriminate.
Defined.


(** [fetch_miss_then_served_from_cache] on [Samples.cache_one], whose
    entry has expired at 30001: the three lookups that follow are
    served what the miss found. *)
Lemma fetch_witness :
  fst (MessageCacheRuns.fetch_each "room1-a" MoreSamples.later_lookups
         (snd (MessageCacheRuns.fetch 30001 30001 30001 "room1-a"
                 ["m1"; "m2"] "q1" Samples.cache_one)))
  = [["m1"; "m2"]; ["m1"; "m2"]; ["m1"; "m2"]].
Proof.
  apply (proj2 (proj2 (fetch_miss_then_served_from_cache Samples.cache_one
                         30001 30001 30001 "room1-a" ["m1"; "m2"] "q1"
                         eq_refl))
           MoreSamples.later_lookups).
  intros l [<-|[<-|[<-|[]]]]; simpl; lia.
Defined.

(** [mergeHideSysMessages_is_a_union] on two lists without a common
    type. *)
Lemma merge_witness :
  MergeHideSysMessages.mergeHideSysMessages ["uj"; "ul"] ["au"]
  = ["uj"; "ul"; "au"].
Proof.
  apply (proj2 (proj2 (mergeHideSysMessages_is_a_union ["uj"; "ul"] ["au"]))).
  repeat constructor; simpl; intuition discriminate.
Defined.

(** [isActive_agrees_with_the_last_event] on [Samples.tracker_day]. *)
Lemma isActive_witness :
  ActivityTracker.isUserActive
    (ActivityTracker.mkTracker (Some 5000) true 4000 1000 [])
  = ActivityTracker.state_after true
      [ActivityTracker.inactive; ActivityTracker.active;
       ActivityTracker.inactive; ActivityTracker.active].
Proof.
  refine (proj1 (isActive_agrees_with_the_last_event 0 1000
                   Samples.tracker_day _ _ _)).
  reflexivity.
Defined.

(** [lastActivity_is_the_last_signal] on [Samples.tracker_day]: the last
    activity is the focus at 4000. *)
Lemma lastActivity_witness :
  ActivityTracker.lastActivity
    (ActivityTracker.mkTracker (Some 5000) true 4000 1000 [])
  = ActivityTrackerRuns.last_activity
      (ActivityTracker.lastActivity Samples.tracker_1s) Samples.tracker_day.
Proof.
  refine (lastActivity_is_the_last_signal Samples.tracker_day
            Samples.tracker_1s _ _ _).
  reflexivity.
Defined.

(** [preserve_then_restore_changes_nothing] with ["room1"] open. *)
Lemma preserve_restore_witness :
  RoomPreserver.restore RoomPreserver.sample_update Samples.room1_open
    (snd (RoomPreserver.preserve RoomPreserver.s_scroll
            RoomPreserver.s_lastTime RoomPreserver.s_atBottom
            Samples.room1_open None))
  = (RoomPreserver.undefined, Samples.room1_open, None).
Proof.
  apply (preserve_then_restore_changes_nothing RoomPreserver.s_scroll
           RoomPreserver.s_lastTime RoomPreserver.s_atBottom
           RoomPreserver.sample_update Samples.room1_open None
           (RoomPreserver.mkPreserved "room1" (Some 0) None (Some true))).
  - intros [[sc|] [lt|] [ab|]]; reflexivity.
  - reflexivity.
Defined.

(** [at_most_one_refresh_interval] after [MoreSamples.manager_night]. *)
Lemma one_interval_witness :
  (List.length
     (SimpleManagerLifecycle.intervals MoreSamples.manager_after_night)
   <= 1)%nat.
Proof.
  refine (proj1 (proj2 (at_most_one_refresh_interval 0
                          MoreSamples.manager_night
                          MoreSamples.manager_after_night _ _))).
  reflexivity.
Defined.


(** [getKey_is_injective]: an empty thread id and none give the key of
    the room. *)
Lemma getKey_witness :
  "room1" = "room1"
  /\ ChatMessagesCleanupService.thread_of (Some EmptyString)
     = ChatMessagesCleanupService.thread_of None.
Proof.
  apply (getKey_is_injective "room1" "room1" (Some EmptyString) None);
    reflexivity.
Defined.

Lemma more_samples_registry_wf : JsMap.wf MoreSamples.registry.
Proof.
  unfold JsMap.wf. simpl. repeat constructor; simpl; intuition discriminate.
Defined.

(** [performCleanup_removes_exactly_the_idle] on
    [MoreSamples.registry] with ["room1"] preserved and a cutoff of
    1000: the room and its thread stay, ["room2"] goes though its
    [release] throws, ["room3"] was used since. *)
Lemma performCleanup_witness :
  JsMap.keys
    (ChatMessagesCleanupService.instances
       (ChatMessagesCleanupService.performCleanup 1000 (Some "room1")
          MoreSamples.registry))
  = ["room1"; "room1:thread1"; "room3"].
Proof.
  rewrite (proj1 (performCleanup_removes_exactly_the_idle 1000
                    (Some "room1") MoreSamples.registry
                    more_samples_registry_wf)).
  reflexivity.
Defined.

(** [registered_instance_survives_cleanup] on [MoreSamples.registry]. *)
Lemma registered_instance_witness :
  JsMap.get (ChatMessagesCleanupService.getKey "room4" (Some "thread2"))
    (ChatMessagesCleanupService.instances
       (ChatMessagesCleanupService.performCleanup 2100 None
          (ChatMessagesCleanupService.registerInstance 3000 "room4"
             (Some "thread2") ChatMessagesCleanupService.releases
             MoreSamples.registry)))
  = Some (ChatMessagesCleanupService.mkInfo "room4" (Some "thread2") 3000
            ChatMessagesCleanupService.releases).
Proof.
  apply (proj1 (registered_instance_survives_cleanup 3000 2100 "room4"
                  (Some "thread2") None ChatMessagesCleanupService.releases
                  MoreSamples.registry more_samples_registry_wf
                  ltac:(lia))).
Defined.

(** [clearCachedCollections_spares_user_and_login] on
    [MoreSamples.storage]: a key with ["chat"] and ["user"] stays. *)
Lemma clearCachedCollections_witness :
  In ("chat_user_preferences", "b")
     (MessageSystemResetManager.clearCachedCollections MoreSamples.storage).
Proof.
  apply (proj2 (clearCachedCollections_spares_user_and_login
                  MoreSamples.storage)).
  - right. now left.
  - left. now exists "chat_", "_preferences".
Defined.

(* ================================================================== *)
(** * Stopping the computations *)

Section ComputationFacts.
Import TrackerComputations.

Lemma stop_loop (cs : list Computation) : forall done n,
  fold_left
    (fun acc comp =>
       if to_stop comp then (fst acc ++ [stop comp], snd acc + 1)
       else (fst acc ++ [comp], snd acc))
    cs (done, n)
  = (done ++ map (fun c => if to_stop c then stop c else c) cs,
     n + Z.of_nat (List.length (filter to_stop cs))).
Proof.
  induction cs as [|c r IH]; intros done n; simpl.
  - rewrite app_nil_r. f_equal. lia.
  - destruct (to_stop c); simpl; rewrite IH, <- app_assoc; simpl;
      f_equal; lia.
Qed.

(** X19.  [stopAllComputations] stops every running computation that is
    not essential and counts them; it leaves the essential and the
    stopped ones as they are, every function and the order too.  Called
    again it finds nothing to stop. *)
Theorem stopAllComputations_spares_the_essential (cs : list Computation) :
  fst (stopAllComputations cs)
  = map (fun c => if to_stop c then stop c else c) cs
  /\ snd (stopAllComputations cs)
     = Z.of_nat (List.length (filter to_stop cs))
  /\ (forall c, In c (fst (stopAllComputations cs)) ->
        stopped c = true \/ isEssentialComputation c = true)
  /\ (forall c, In c cs -> isEssentialComputation c = true ->
        In c (fst (stopAllComputations cs)))
  /\ stopAllComputations (fst (stopAllComputations cs))
     = (fst (stopAllComputations cs), 0).
Proof.
  unfold stopAllComputations. rewrite stop_loop. simpl.
  split; [reflexivity|]. split; [reflexivity|]. split; [|split].
  - intros c I. apply in_map_iff in I. destruct I as (x & <- & _).
    unfold to_stop. destruct (stopped x) eqn:S; simpl; [now left|].
    destruct (isEssentialComputation x) eqn:E; simpl; [now right|now left].
  - intros c I E. apply in_map_iff. exists c. split; [|exact I].
    unfold to_stop. rewrite E. now rewrite Bool.andb_false_r.
  - rewrite stop_loop. simpl.
    assert (N : forall c, to_stop (if to_stop c then stop c else c) = false).
    { intros c. destruct (to_stop c) eqn:T; [reflexivity|exact T]. }
    f_equal.
    + rewrite map_map. apply map_ext. intros c. now rewrite N.
    + induction cs as [|c r IH]; simpl; [reflexivity|]. now rewrite N.
Qed.

End ComputationFacts.
